(** * Transfer reassembly for high-overhead transports

    A shallow embedding of
    [pyuavcan/transport/commons/high_overhead_transport/_transfer_reassembler.py]
    and the properties of its reassembly state machine, its finalizer and its
    CRC-tail trimmer. *)

From Stdlib Require Import ZArith Lia Strings.Byte Strings.String Sorting.Sorted.
From stdpp Require Import base option list.

Local Open Scope Z_scope.

(** ** Data model *)

(** A [memoryview] over received bytes. *)
Abbreviation payload := (list byte).

Global Instance byte_eq_dec : EqDecision byte := Byte.byte_eq_dec.

(** [bool(x)] of a sequence: it is true when the sequence has an element. *)
Definition truthy {A : Type} (x : list A) : bool :=
  match x with [] => false | _ :: _ => true end.

(** [b"..."] literals of the unit tests. *)
Definition mv (s : string) : payload := list_byte_of_string s.

(** [pyuavcan.transport.Timestamp]: a pair of nanosecond counters.  Its
    [monotonic] property is [monotonic_ns] scaled to seconds; time is kept in
    nanoseconds here, and so is the transfer-ID timeout. *)
Module Timestamp.
Record t : Type := mk { system_ns : Z; monotonic_ns : Z }.
End Timestamp.

(** [pyuavcan.transport.Priority]; the reassembler only forwards it. *)
Inductive Priority : Type :=
| EXCEPTIONAL | IMMEDIATE | FAST | HIGH | NOMINAL | LOW | SLOW | OPTIONAL.

(** [Frame] of [._frame]: Python integers are unbounded, the index is a
    position in a list. *)
Module Frame.
Record t : Type := mk {
  timestamp : Timestamp.t;
  priority : Priority;
  transfer_id : Z;
  index : nat;
  end_of_transfer : bool;
  payload : list byte
}.

(** The [single_frame_transfer] property. *)
Definition single_frame_transfer (frame : t) : bool :=
  (index frame =? 0)%nat && end_of_transfer frame.
End Frame.

(** [pyuavcan.transport.TransferFrom]. *)
Module TransferFrom.
Record t : Type := mk {
  timestamp : Timestamp.t;
  priority : Priority;
  transfer_id : Z;
  fragmented_payload : list payload;
  source_node_id : option Z
}.
End TransferFrom.

(** [TransferReassembler.Error]. *)
Inductive Error : Type :=
| MULTIFRAME_MISSING_FRAMES
| MULTIFRAME_INTEGRITY_ERROR
| MULTIFRAME_EMPTY_FRAME
| MULTIFRAME_EOT_MISPLACED
| MULTIFRAME_EOT_INCONSISTENT
| PAYLOAD_SIZE_EXCEEDS_LIMIT.

(** The fields of a [TransferReassembler] instance (the callback is modelled
    by the event log below). *)
Record TransferReassembler : Type := mkReassembler {
  _source_node_id : Z;
  _max_payload_size_bytes : Z;
  _payloads : list payload;
  _max_index : option nat;
  _timestamp : Timestamp.t;
  _transfer_id : Z
}.

Definition set_payloads (v : list payload) (self : TransferReassembler) :=
  mkReassembler (_source_node_id self) (_max_payload_size_bytes self)
                v (_max_index self) (_timestamp self) (_transfer_id self).
Definition set_max_index (v : option nat) (self : TransferReassembler) :=
  mkReassembler (_source_node_id self) (_max_payload_size_bytes self)
                (_payloads self) v (_timestamp self) (_transfer_id self).
Definition set_timestamp (v : Timestamp.t) (self : TransferReassembler) :=
  mkReassembler (_source_node_id self) (_max_payload_size_bytes self)
                (_payloads self) (_max_index self) v (_transfer_id self).
Definition set_transfer_id (v : Z) (self : TransferReassembler) :=
  mkReassembler (_source_node_id self) (_max_payload_size_bytes self)
                (_payloads self) (_max_index self) (_timestamp self) v.

Arguments set_payloads v !self /.
Arguments set_max_index v !self /.
Arguments set_timestamp v !self /.
Arguments set_transfer_id v !self /.

(** ** Effects

    A call either raises or returns a value, the instance as the call left
    it, and the callback invocations it made, oldest first.  An invocation
    is logged with the fields of the instance as they were when the callback
    ran: that is what the callback (and the debug report built right after
    it) can observe. *)

Inductive Raised : Type :=
| ValueError
| AssertionError
| Unterminated.   (* a loop of the model ran out of its iteration budget *)

Inductive Result (A : Type) : Type :=
| Ok (a : A)
| Raise (e : Raised).
Arguments Ok {A} a.
Arguments Raise {A} e.

Inductive Event : Type :=
| OnError (error : Error) (seen : TransferReassembler).

Definition M (A : Type) : Type :=
  TransferReassembler → Result (A * TransferReassembler * list Event).

Global Instance M_ret : MRet M := λ A a self, Ok (a, self, []).

Global Instance M_bind : MBind M := λ A B f m self,
  match m self with
  | Ok (a, self', log) =>
      match f a self' with
      | Ok (b, self'', log') => Ok (b, self'', log ++ log')
      | Raise e => Raise e
      end
  | Raise e => Raise e
  end.

Definition get_self : M TransferReassembler := λ self, Ok (self, self, []).
Definition assign (f : TransferReassembler → TransferReassembler) : M unit :=
  λ self, Ok (tt, f self, []).
Definition raise {A : Type} (e : Raised) : M A := λ _, Raise e.
Definition lift {A : Type} (r : Result A) : M A :=
  λ self, match r with Ok a => Ok (a, self, []) | Raise e => Raise e end.
Definition assert (c : bool) : M unit :=
  if c then mret tt else raise AssertionError.
Definition skip : M unit := mret tt.

(** [self._on_error_callback(error)]. *)
Definition _on_error_callback (error : Error) : M unit :=
  λ self, Ok (tt, self, [OnError error self]).

Definition errors_of (log : list Event) : list Error :=
  map (λ ev, match ev with OnError e _ => e end) log.

(** ** The CRC-tail trimmer *)

(** The [while] loop of [_drop_crc]; [fuel] bounds the iterations. *)
Fixpoint drop_crc_loop (fuel : nat) (fragments : list payload) (remaining : nat)
  : option (list payload) :=
  if truthy fragments && (0 <? remaining)%nat then
    match fuel with
    | O => None
    | S fuel' =>
        let back := default [] (last fragments) in
        if (length back <=? remaining)%nat then
          drop_crc_loop fuel' (removelast fragments) (remaining - length back)%nat
        else
          drop_crc_loop fuel'
            (<[(length fragments - 1)%nat := take (length back - remaining) back]> fragments)
            0%nat
    end
  else Some fragments.

(** [_unittest_drop_crc], with the trailer size as a parameter: the
    conjunction of its twelve assertions. *)
Definition _unittest_drop_crc (crc_size : nat) : bool :=
  let drop fragments := drop_crc_loop (length fragments) fragments crc_size in
  let check fragments (expected : list payload) :=
    bool_decide (drop fragments = Some expected) in
  check [mv "0123456789"] [mv "012345"]
  && check [mv "0123456789"; mv "abcde"] [mv "0123456789"; mv "a"]
  && check [mv "0123456789"; mv "abcd"] [mv "0123456789"]
  && check [mv "0123456789"; mv "abc"] [mv "012345678"]
  && check [mv "0123456789"; mv "ab"] [mv "01234567"]
  && check [mv "0123456789"; mv "a"] [mv "0123456"]
  && check [mv "0123456789"; mv ""] [mv "012345"]
  && check [mv "0123456789"; mv ""; mv "a"; mv "b"] [mv "01234567"]
  && check [mv "01"; mv ""; mv "a"; mv "b"] []
  && check [mv "0"; mv ""; mv "a"; mv "b"] []
  && check [mv ""] []
  && check [] [].

(** [_CRC_SIZE_BYTES = len(TransferCRC().value_as_bytes)].  [TransferCRC]
    is declared in [._common]; the length of its value is the one the
    assertions of [_unittest_drop_crc] hold for (see
    [unittest_drop_crc_fixes_crc_size]). *)
Definition _CRC_SIZE_BYTES : nat := 4.

Definition _drop_crc (fragments : list payload) : Result (list payload) :=
  match drop_crc_loop (length fragments) fragments _CRC_SIZE_BYTES with
  | Some fragments' => Ok fragments'
  | None => Raise Unterminated
  end.

(** What the trimmer is meant to compute on the bytes of the transfer. *)
Definition without_crc (bytes : list byte) : list byte :=
  take (length bytes - _CRC_SIZE_BYTES) bytes.

(** ** An instance of the transfer CRC

    [TransferCRC] of [._common] is not among the modelled sources; the
    reassembler is parameterised by its residue check.  The CRC-32C below has
    a four-byte little-endian value and serves to run the reassembler on
    concrete transfers. *)
Module CRC32C.
Definition step (v : Z) : Z :=
  if Z.odd v then Z.lxor (Z.shiftr v 1) 0x82F63B78 else Z.shiftr v 1.

Definition add_byte (v : Z) (x : byte) : Z :=
  Nat.iter 8 step (Z.lxor v (Z.of_N (Byte.to_N x))).

Definition add (v : Z) (data : payload) : Z := fold_left add_byte data v.

(** [TransferCRC.new( *fragments )]: the register after absorbing them. *)
Definition new (fragments : list payload) : Z :=
  fold_left add fragments 0xFFFFFFFF.

Definition check_residue (fragments : list payload) : bool :=
  new fragments =? 0xB798B438.

Definition value (fragments : list payload) : Z :=
  Z.lxor (new fragments) 0xFFFFFFFF.

Definition byte_at (v : Z) (i : nat) : byte :=
  default "000"%byte
    (Byte.of_N (Z.to_N (Z.land (Z.shiftr v (8 * Z.of_nat i)) 0xFF))).

Definition value_as_bytes (fragments : list payload) : payload :=
  map (byte_at (value fragments)) (seq 0 4).
End CRC32C.

(** ** The reassembler *)

(** [TransferReassembler.__init__].  The callback is what the monad logs;
    of the argument [on_error_callback] the constructor needs to know only
    whether it is callable, and that is what the third argument says. *)
Definition __init__ (source_node_id max_payload_size_bytes : Z)
    (on_error_callback_callable : bool) : Result TransferReassembler :=
  if (source_node_id <? 0) || (max_payload_size_bytes <? 0)
     || negb on_error_callback_callable
  then Raise ValueError
  else Ok (mkReassembler source_node_id max_payload_size_bytes
                         [] None (Timestamp.mk 0 0) 0).

(** [TransferReassembler._restart]: the callback first, then the four
    assignments. *)
Definition _restart (timestamp : Timestamp.t) (transfer_id : Z)
    (error : option Error) : M unit :=
  match error with
  | Some e => _on_error_callback e
  | None => skip
  end;;
  assign (set_timestamp timestamp);;
  assign (set_transfer_id transfer_id);;
  assign (set_max_index None);;
  assign (set_payloads []).

(** [TransferReassembler._pure_payload_size_bytes]. *)
Definition _pure_payload_size_bytes (self : TransferReassembler) : Z :=
  let size := Z.of_nat (sum_list_with length (_payloads self)) in
  if (1 <? length (_payloads self))%nat then size - Z.of_nat _CRC_SIZE_BYTES
  else size.

(** [TransferReassembler.construct_anonymous_transfer]. *)
Definition construct_anonymous_transfer (frame : Frame.t)
  : option TransferFrom.t :=
  if Frame.single_frame_transfer frame then
    Some (TransferFrom.mk (Frame.timestamp frame) (Frame.priority frame)
            (Frame.transfer_id frame) [Frame.payload frame] None)
  else None.

(** The loop [while len(self._payloads) <= frame.index: append(b'')]. *)
Fixpoint append_loop (fuel : nat) (payloads : list payload) (index : nat)
  : option (list payload) :=
  if (length payloads <=? index)%nat then
    match fuel with
    | O => None
    | S fuel' => append_loop fuel' (payloads ++ [[]]) index
    end
  else Some payloads.

Definition terminated {A : Type} (r : option A) : Result A :=
  match r with Some a => Ok a | None => Raise Unterminated end.


(** ** Notions used to state the properties *)

(** The test of line 105: an empty frame that is not a single-frame
    transfer. *)
Definition malformed (frame : Frame.t) : bool :=
  negb ((Frame.index frame =? 0)%nat && Frame.end_of_transfer frame)
  && negb (truthy (Frame.payload frame)).

(** The second disjunct of the test of lines 110 and 111.  The timeout is a
    number, taken in whole nanoseconds like the timestamps; a timeout that
    is not a number, with which the comparison has no truth value, is
    outside the model. *)
Definition timed_out (frame : Frame.t) (transfer_id_timeout : Z)
    (self : TransferReassembler) : bool :=
  transfer_id_timeout <?
    Timestamp.monotonic_ns (Frame.timestamp frame)
    - Timestamp.monotonic_ns (_timestamp self).

(** The test of lines 110 and 111. *)
Definition new_transfer (frame : Frame.t) (transfer_id_timeout : Z)
    (self : TransferReassembler) : bool :=
  (_transfer_id self <? Frame.transfer_id frame)
  || timed_out frame transfer_id_timeout self.

(** The instance as the four assignments of [_restart] leave it. *)
Definition restarted (timestamp : Timestamp.t) (transfer_id : Z)
    (self : TransferReassembler) : TransferReassembler :=
  set_payloads [] (set_max_index None
    (set_transfer_id transfer_id (set_timestamp timestamp self))).

(** The fragment list after lines 139 to 141. *)
Definition stored (index : nat) (fragment : payload) (payloads : list payload)
  : list payload :=
  <[index := fragment]> (payloads ++ replicate (S index - length payloads) []).

(** The instance with [frame] stored: what lines 110 to 141 make of [self]
    when none of the returns in between is taken.  A frame that starts a new
    transfer (line 110) finds the four fields as [_restart] sets them, with
    its own timestamp and transfer-ID; line 129 sets the last index when the
    frame has the end-of-transfer flag; lines 139 to 141 put the payload at
    the frame's index. *)
Definition with_frame (frame : Frame.t) (transfer_id_timeout : Z)
    (self : TransferReassembler) : TransferReassembler :=
  let fresh := new_transfer frame transfer_id_timeout self in
  mkReassembler (_source_node_id self) (_max_payload_size_bytes self)
    (stored (Frame.index frame) (Frame.payload frame)
       (if fresh then [] else _payloads self))
    (if Frame.end_of_transfer frame then Some (Frame.index frame)
     else if fresh then None else _max_index self)
    (if fresh then Frame.timestamp frame else _timestamp self)
    (if fresh then Frame.transfer_id frame else _transfer_id self).

(** The errors that [process_frame] reports through [_restart] after the
    frame was matched to the current transfer. *)
Definition aborts (error : Error) : bool :=
  match error with
  | MULTIFRAME_INTEGRITY_ERROR | MULTIFRAME_EOT_MISPLACED
  | MULTIFRAME_EOT_INCONSISTENT | PAYLOAD_SIZE_EXCEEDS_LIMIT => true
  | MULTIFRAME_MISSING_FRAMES | MULTIFRAME_EMPTY_FRAME => false
  end.

(** The instance holds something of a transfer. *)
Definition holds_transfer (self : TransferReassembler) : Prop :=
  _payloads self ≠ [] ∨ is_Some (_max_index self).

(** What holds of the instance between calls: once the last index is known,
    the fragment list reaches exactly that index (the assertion of line
    155). *)
Definition consistent (self : TransferReassembler) : Prop :=
  ∀ m, _max_index self = Some m → length (_payloads self) = S m.

(** [frame] is a frame of the transfer that [self] holds: it carries the
    transfer-ID, the fragment held at its index, and the end-of-transfer flag
    exactly at the last index. *)
Definition frame_of_transfer (frame : Frame.t) (self : TransferReassembler)
  : Prop :=
  Frame.transfer_id frame = _transfer_id self
  ∧ _payloads self !! Frame.index frame = Some (Frame.payload frame)
  ∧ (Frame.end_of_transfer frame = true
     ↔ _max_index self = Some (Frame.index frame)).

(** The effect of [accept_frame] in closed form (see [accept_frame_run]):
    the value, the instance afterwards and the callback invocations. *)
Definition accept_frame_effect (frame : Frame.t) (transfer_id_timeout : Z)
    (self : TransferReassembler) : bool * TransferReassembler * list Event :=
  if malformed frame then (false, self, [OnError MULTIFRAME_EMPTY_FRAME self])
  else
    let fresh := new_transfer frame transfer_id_timeout self in
    let s1 :=
      if fresh
      then restarted (Frame.timestamp frame) (Frame.transfer_id frame) self
      else self in
    let log1 :=
      if fresh && truthy (_payloads self)
      then [OnError MULTIFRAME_MISSING_FRAMES self] else [] in
    let abort error seen :=
      (false,
       restarted (Frame.timestamp frame) (Frame.transfer_id frame + 1) seen,
       log1 ++ [OnError error seen]) in
    if Frame.transfer_id frame <? _transfer_id s1 then (false, s1, log1)
    else if Frame.end_of_transfer frame
            && match _max_index s1 with
               | Some m => negb (m =? Frame.index frame)%nat
               | None => false
               end
    then abort MULTIFRAME_EOT_INCONSISTENT s1
    else
      let s2 :=
        if Frame.end_of_transfer frame
        then set_max_index (Some (Frame.index frame)) s1 else s1 in
      if match _max_index s2 with
         | Some m =>
             Z.of_nat m <? Z.max (Z.of_nat (Frame.index frame))
                                 (Z.of_nat (length (_payloads s2)) - 1)
         | None => false
         end
      then abort MULTIFRAME_EOT_MISPLACED s2
      else
        let s3 :=
          set_payloads
            (stored (Frame.index frame) (Frame.payload frame) (_payloads s2))
            s2 in
        if _max_payload_size_bytes s3 <? _pure_payload_size_bytes s3
        then abort PAYLOAD_SIZE_EXCEEDS_LIMIT s3
        else (true, s3, log1).

(** ** Well-formed multi-frame transfers *)

(** The frames of a transfer, listed by index: two or more frames, numbered
    from zero, with one transfer-ID, one timestamp and one priority, no empty
    payload, and the end-of-transfer flag on the last frame only. *)
Record well_formed_transfer (frames : list Frame.t) (transfer_id : Z)
    (timestamp : Timestamp.t) (priority : Priority) : Prop := {
  wft_multi : (2 ≤ length frames)%nat;
  wft_index : ∀ i frame, frames !! i = Some frame → Frame.index frame = i;
  wft_transfer_id :
    ∀ frame, frame ∈ frames → Frame.transfer_id frame = transfer_id;
  wft_timestamp : ∀ frame, frame ∈ frames → Frame.timestamp frame = timestamp;
  wft_priority : ∀ frame, frame ∈ frames → Frame.priority frame = priority;
  wft_payload : ∀ frame, frame ∈ frames → Frame.payload frame ≠ [];
  wft_eot :
    ∀ i frame, frames !! i = Some frame →
               (Frame.end_of_transfer frame = true ↔ S i = length frames)
}.

(** The payload of the frame numbered [i]. *)
Definition fragment_of (frames : list Frame.t) (i : nat) : payload :=
  from_option Frame.payload [] (frames !! i).

(** One past the highest of the indices [delivered]. *)
Definition reach (delivered : list nat) : nat :=
  foldr (λ i n, S i `max` n)%nat 0%nat delivered.

(** The fragment list once the frames numbered [delivered] have been
    stored: the positions of the others hold the empty filler. *)
Definition held (frames : list Frame.t) (delivered : list nat) : list payload :=
  (λ i, if bool_decide (i ∈ delivered) then fragment_of frames i else [])
    <$> seq 0 (reach delivered).

(** The instance while it collects the transfer [frames]. *)
Definition collected (frames : list Frame.t) (source_node_id limit : Z)
    (first_timestamp : Timestamp.t) (transfer_id : Z) (delivered : list nat)
  : TransferReassembler :=
  mkReassembler source_node_id limit (held frames delivered)
    (if bool_decide ((length frames - 1)%nat ∈ delivered)
     then Some (length frames - 1)%nat else None)
    first_timestamp transfer_id.

(** ** The unit tests of the source, as executable checks *)

Definition hedgehog : payload :=
  mv "In the evenings, the little Hedgehog went to the Bear Cub to count stars.".
Definition horse : payload :=
  mv "He thought about the Horse: how was she doing there, in the fog?".

(** [mk_ts] of the tests, for a whole number of seconds. *)
Definition mk_ts (monotonic : Z) : Timestamp.t :=
  Timestamp.mk (monotonic * 10 ^ 9 + 10 ^ 12) (monotonic * 10 ^ 9).

Definition mk_frame (timestamp : Timestamp.t) (transfer_id : Z) (index : nat)
    (end_of_transfer : bool) (payload : payload) : Frame.t :=
  Frame.mk timestamp SLOW transfer_id index end_of_transfer payload.

Definition mk_transfer (timestamp : Timestamp.t) (transfer_id : Z)
    (fragmented_payload : list payload) : TransferFrom.t :=
  TransferFrom.mk timestamp SLOW transfer_id fragmented_payload (Some 1234).

(** The frames pushed by [_unittest_transfer_reassembler], in order. *)
Definition unittest_frames : list Frame.t :=
  let crc p := CRC32C.value_as_bytes [p] in
  [ mk_frame (mk_ts 1000) 0 0 true hedgehog;
    mk_frame (mk_ts 1000) 0 0 true hedgehog;
    mk_frame (mk_ts 1000) 0 0 false hedgehog;
    mk_frame (mk_ts 1000) 1 0 true (hedgehog ++ hedgehog);
    mk_frame (mk_ts 1000) 2 0 false (take 50 hedgehog);
    mk_frame (mk_ts 1000) 2 1 true (drop 50 hedgehog ++ crc hedgehog);
    mk_frame (mk_ts 1000) 10 2 true (crc hedgehog);
    mk_frame (mk_ts 1000) 10 1 false (drop 50 hedgehog);
    mk_frame (mk_ts 1000) 10 0 false (take 50 hedgehog);
    mk_frame (mk_ts 1000) 11 1 false (drop 50 hedgehog);
    mk_frame (mk_ts 1000) 0 0 false (drop 50 hedgehog);
    mk_frame (mk_ts 1000) 11 2 true (crc hedgehog);
    mk_frame (mk_ts 1000) 11 1 false (drop 50 hedgehog);
    mk_frame (mk_ts 1000) 10 1 false (drop 50 hedgehog);
    mk_frame (mk_ts 1000) 9999999999 0 false [];
    mk_frame (mk_ts 1000) 11 0 false (take 50 hedgehog);
    mk_frame (mk_ts 2000) 0 0 true hedgehog;
    mk_frame (mk_ts 3000) 2 1 false hedgehog;
    mk_frame (mk_ts 3000) 3 1 false (drop 50 horse);
    mk_frame (mk_ts 3000) 3 2 true (crc horse);
    mk_frame (mk_ts 3000) 3 0 false (take 50 horse);
    mk_frame (mk_ts 3000) 10 1 false hedgehog;
    mk_frame (mk_ts 4000) 3 1 false (drop 50 horse);
    mk_frame (mk_ts 4000) 3 2 true (crc horse);
    mk_frame (mk_ts 4000) 3 0 false (take 50 horse);
    mk_frame (mk_ts 5000) 10 1 false (drop 50 hedgehog);
    mk_frame (mk_ts 5000) 10 2 true (rev (crc hedgehog));
    mk_frame (mk_ts 5000) 10 0 false (take 50 hedgehog);
    mk_frame (mk_ts 5000) 11 1 false (drop 50 hedgehog);
    mk_frame (mk_ts 5000) 11 3 false horse;
    mk_frame (mk_ts 5000) 11 2 true (crc (hedgehog ++ horse));
    mk_frame (mk_ts 5000) 12 0 false (take 50 hedgehog);
    mk_frame (mk_ts 5000) 12 2 true (crc (hedgehog ++ horse));
    mk_frame (mk_ts 5000) 12 3 true horse;
    mk_frame (mk_ts 6000) 0 0 true [] ].

(** What the test expects each push to return. *)
Definition unittest_expected : list (option TransferFrom.t) :=
  let hh := [take 50 hedgehog; drop 50 hedgehog] in
  let ho := [take 50 horse; drop 50 horse] in
  [ Some (mk_transfer (mk_ts 1000) 0 [hedgehog]); None; None; None; None;
    Some (mk_transfer (mk_ts 1000) 2 hh); None; None;
    Some (mk_transfer (mk_ts 1000) 10 hh); None; None; None; None; None; None;
    Some (mk_transfer (mk_ts 1000) 11 hh);
    Some (mk_transfer (mk_ts 2000) 0 [hedgehog]); None; None; None;
    Some (mk_transfer (mk_ts 3000) 3 ho); None; None; None;
    Some (mk_transfer (mk_ts 4000) 3 ho);
    None; None; None; None; None; None; None; None; None;
    Some (mk_transfer (mk_ts 6000) 0 [[]]) ].

(** The callback invocations the test counts, in the order they happen. *)
Definition unittest_errors : list Error :=
  [ PAYLOAD_SIZE_EXCEEDS_LIMIT; MULTIFRAME_EMPTY_FRAME;
    MULTIFRAME_MISSING_FRAMES; MULTIFRAME_MISSING_FRAMES;
    MULTIFRAME_INTEGRITY_ERROR; MULTIFRAME_EOT_MISPLACED;
    MULTIFRAME_EOT_INCONSISTENT ].

(** The timeout of the tests, one second. *)
Definition one_second : Z := 10 ^ 9.

(** The instance of the tests while it holds the last two frames of
    transfer 10 and waits for the first. *)
Definition awaiting_first : TransferReassembler :=
  mkReassembler 1234 100
    [[]; drop 50 hedgehog; CRC32C.value_as_bytes [hedgehog]] (Some 2%nat)
    (mk_ts 1000) 10.

(** The same with the first frame stored: what the finalizer is given. *)
Definition all_received : TransferReassembler :=
  mkReassembler 1234 100
    [take 50 hedgehog; drop 50 hedgehog; CRC32C.value_as_bytes [hedgehog]]
    (Some 2%nat) (mk_ts 1000) 10.

(** The three frames of transfer 10. *)
Definition first_frame : Frame.t :=
  mk_frame (mk_ts 1000) 10 0 false (take 50 hedgehog).
Definition middle_frame : Frame.t :=
  mk_frame (mk_ts 1000) 10 1 false (drop 50 hedgehog).
Definition last_frame : Frame.t :=
  mk_frame (mk_ts 1000) 10 2 true (CRC32C.value_as_bytes [hedgehog]).

(** The instance right after transfer 10 was emitted. *)
Definition after_emission : TransferReassembler :=
  mkReassembler 1234 100 [] None (mk_ts 1000) 11.

(** An empty frame that is not a single-frame transfer, with a transfer-ID
    below the current one. *)
Definition empty_stale_frame : Frame.t := mk_frame (mk_ts 1000) 3 1 false [].

(** A frame of an old transfer-ID within the timeout, and a single-frame
    transfer of an old transfer-ID past the timeout. *)
Definition old_frame : Frame.t :=
  mk_frame (mk_ts 1000) 0 0 false (drop 50 hedgehog).
Definition late_old_frame : Frame.t := mk_frame (mk_ts 2000) 0 0 true hedgehog.

(** A second end of transfer, at index 3. *)
Definition second_last_frame : Frame.t := mk_frame (mk_ts 1000) 10 3 true horse.

(** A transfer of two frames that arrive five nanoseconds apart. *)
Definition five_later : Timestamp.t :=
  Timestamp.mk (1000 * 10 ^ 9 + 10 ^ 12 + 5) (1000 * 10 ^ 9 + 5).
Definition early_half : Frame.t :=
  mk_frame (mk_ts 1000) 20 0 false (take 50 hedgehog).
Definition late_half : Frame.t :=
  mk_frame five_later 20 1 true
    (drop 50 hedgehog ++ CRC32C.value_as_bytes [hedgehog]).

(** A transfer of two frames with one timestamp whose CRC begins in the
    first frame, for an instance whose limit is the 73 bytes of its
    payload. *)
Definition tight : TransferReassembler :=
  mkReassembler 1234 73 [] None (mk_ts 1000) 11.
Definition long_head : Frame.t :=
  mk_frame (mk_ts 1000) 20 0 false
    (hedgehog ++ take 3 (CRC32C.value_as_bytes [hedgehog])).
Definition short_tail : Frame.t :=
  mk_frame (mk_ts 1000) 20 1 true (drop 3 (CRC32C.value_as_bytes [hedgehog])).

(** A frame of a lower transfer-ID that arrives past the timeout. *)
Definition late_lower_frame : Frame.t :=
  mk_frame (mk_ts 2000) 3 1 false (drop 50 horse).

(** An instance with nothing held, at transfer-ID 3. *)
Definition idle_at_3 : TransferReassembler :=
  mkReassembler 1234 100 [] None (mk_ts 1000) 3.

(** The instance as the constructor of the tests makes it. *)
Definition constructed : TransferReassembler :=
  mkReassembler 1234 100 [] None (Timestamp.mk 0 0) 0.

(** The instance of the tests while it holds the last frame of transfer 10
    and nothing else. *)
Definition awaiting_two : TransferReassembler :=
  mkReassembler 1234 100 [[]; []; CRC32C.value_as_bytes [hedgehog]]
    (Some 2%nat) (mk_ts 1000) 10.

(** Transfer 10 as the tests expect it. *)
Definition emitted_10 : TransferFrom.t :=
  mk_transfer (mk_ts 1000) 10 [take 50 hedgehog; drop 50 hedgehog].

(** A single-frame transfer of a newer transfer-ID. *)
Definition single_frame : Frame.t := mk_frame (mk_ts 1000) 20 0 true hedgehog.

(** A first frame of transfer 10 that carries other bytes than the CRC was
    computed over, and the instance with that frame stored. *)
Definition corrupt_first_frame : Frame.t :=
  mk_frame (mk_ts 1000) 10 0 false (take 50 horse).
Definition corrupt_received : TransferReassembler :=
  mkReassembler 1234 100
    [take 50 horse; drop 50 hedgehog; CRC32C.value_as_bytes [hedgehog]]
    (Some 2%nat) (mk_ts 1000) 10.

(** A single-frame transfer of a newer transfer-ID whose payload is above
    the limit of the tests, and the instance with that frame stored. *)
Definition oversized_frame : Frame.t :=
  mk_frame (mk_ts 2000) 20 0 true (hedgehog ++ hedgehog).
Definition oversized_stored : TransferReassembler :=
  mkReassembler 1234 100 [hedgehog ++ hedgehog] (Some 0%nat) (mk_ts 2000) 20.

(** The single-frame transfer 11, whose frame arrives five nanoseconds
    after the frames of transfer 10. *)
Definition next_single_frame : Frame.t := mk_frame five_later 11 0 true horse.

(** The transfer-IDs of the transfers that a sequence of calls returned,
    in the order of the calls. *)
Definition emitted_ids (results : list (option TransferFrom.t)) : list Z :=
  TransferFrom.transfer_id <$> omap id results.

(** What a call returned, and the errors it reported. *)
Definition returned {A : Type}
    (r : Result (A * TransferReassembler * list Event)) : option A :=
  match r with Ok (a, _, _) => Some a | Raise _ => None end.

Definition reported {A : Type}
    (r : Result (A * TransferReassembler * list Event)) : list Error :=
  match r with Ok (_, _, log) => errors_of log | Raise _ => [] end.

Section Reassembler.

(** [TransferCRC.new( *frame_payloads ).check_residue()]. *)
Variable check_residue : list payload → bool.

(** [_validate_and_finalize_transfer].  The first assertion of the source
    holds by typing.  [_drop_crc] trims the list it is given in place, and
    that list is [self._payloads]; it does so only when a transfer is
    returned, and [_restart] then binds [self._payloads] to a new list
    without a callback in between, so the trimmed list is never seen
    through the instance and its fields need no update here. *)
Definition _validate_and_finalize_transfer
    (timestamp : Timestamp.t) (priority : Priority) (transfer_id : Z)
    (frame_payloads : list payload) (source_node_id : Z)
  : Result (option TransferFrom.t) :=
  let package fragmented_payload :=
    TransferFrom.mk timestamp priority transfer_id fragmented_payload
                    (Some source_node_id) in
  if truthy frame_payloads then
    if (1 <? length frame_payloads)%nat then
      let size_ok :=
        (_CRC_SIZE_BYTES <? sum_list_with length frame_payloads)%nat in
      let crc_ok := check_residue frame_payloads in
      if size_ok && crc_ok then
        match _drop_crc frame_payloads with
        | Ok fragments => Ok (Some (package fragments))
        | Raise e => Raise e
        end
      else Ok None
    else Ok (Some (package frame_payloads))
  else Raise AssertionError.

(** [process_frame], lines 104 to 148: everything up to the size limit.
    The value is [false] when the call has returned [None] and [true] when
    control reaches the completion check with the frame stored. *)
Definition accept_frame (frame : Frame.t) (transfer_id_timeout : Z) : M bool :=
  (* DROP MALFORMED FRAMES. *)
  if negb ((Frame.index frame =? 0)%nat && Frame.end_of_transfer frame)
     && negb (truthy (Frame.payload frame)) then
    _on_error_callback MULTIFRAME_EMPTY_FRAME;;
    mret false
  else
    (* DETECT NEW TRANSFERS. *)
    self ← get_self;
    (if (_transfer_id self <? Frame.transfer_id frame)
        || (transfer_id_timeout <?
              Timestamp.monotonic_ns (Frame.timestamp frame)
              - Timestamp.monotonic_ns (_timestamp self))
     then _restart (Frame.timestamp frame) (Frame.transfer_id frame)
                   (if truthy (_payloads self)
                    then Some MULTIFRAME_MISSING_FRAMES else None)
     else skip);;
    (* DROP FRAMES FROM NON-MATCHING TRANSFERS. *)
    self ← get_self;
    if Frame.transfer_id frame <? _transfer_id self then mret false
    else
      assert (Frame.transfer_id frame =? _transfer_id self);;
      (* DETERMINE MAX FRAME INDEX FOR THIS TRANSFER. *)
      if Frame.end_of_transfer frame
         && match _max_index self with
            | Some m => negb (m =? Frame.index frame)%nat
            | None => false
            end
      then
        _restart (Frame.timestamp frame) (Frame.transfer_id frame + 1)
                 (Some MULTIFRAME_EOT_INCONSISTENT);;
        mret false
      else
        (if Frame.end_of_transfer frame
         then
           assert (match _max_index self with
                   | Some m => (m =? Frame.index frame)%nat
                   | None => true
                   end);;
           assign (set_max_index (Some (Frame.index frame)))
         else skip);;
        (* DETECT UNEXPECTED FRAMES PAST THE END OF TRANSFER. *)
        self ← get_self;
        if match _max_index self with
           | Some m =>
               Z.of_nat m <? Z.max (Z.of_nat (Frame.index frame))
                                   (Z.of_nat (length (_payloads self)) - 1)
           | None => false
           end
        then
          _restart (Frame.timestamp frame) (Frame.transfer_id frame + 1)
                   (Some MULTIFRAME_EOT_MISPLACED);;
          mret false
        else
          (* ACCEPT THE PAYLOAD. *)
          payloads ← lift (terminated
            (append_loop (S (Frame.index frame)) (_payloads self)
                         (Frame.index frame)));
          assign (set_payloads
                    (<[Frame.index frame := Frame.payload frame]> payloads));;
          (* ENFORCE PAYLOAD SIZE LIMIT. *)
          self ← get_self;
          if _max_payload_size_bytes self <? _pure_payload_size_bytes self
          then
            _restart (Frame.timestamp frame) (Frame.transfer_id frame + 1)
                     (Some PAYLOAD_SIZE_EXCEEDS_LIMIT);;
            mret false
          else mret true.

(** [process_frame], lines 150 to 167: the completion check and the
    finalization. *)
Definition complete_transfer (frame : Frame.t) : M (option TransferFrom.t) :=
  (* CHECK IF ALL FRAMES ARE RECEIVED. *)
  self ← get_self;
  if match _max_index self with
     | None => true
     | Some m => (0 <? m)%nat && negb (forallb truthy (_payloads self))
     end
  then mret None
  else
    assert (bool_decide (is_Some (_max_index self)));;
    assert (match _max_index self with
            | Some m => Z.of_nat m =? Z.of_nat (length (_payloads self)) - 1
            | None => false
            end);;
    assert (match _max_index self with
            | Some (S _) => forallb truthy (_payloads self)
            | _ => true
            end);;
    (* FINALIZE THE TRANSFER. *)
    result ← lift (_validate_and_finalize_transfer
                     (_timestamp self) (Frame.priority frame)
                     (Frame.transfer_id frame) (_payloads self)
                     (_source_node_id self));
    _restart (Frame.timestamp frame) (Frame.transfer_id frame + 1)
             (match result with
              | None => Some MULTIFRAME_INTEGRITY_ERROR
              | Some _ => None
              end);;
    mret result.

Definition process_frame (frame : Frame.t) (transfer_id_timeout : Z)
  : M (option TransferFrom.t) :=
  reached ← accept_frame frame transfer_id_timeout;
  if reached : bool then complete_transfer frame else mret None.

(** Successive calls on one instance, with one timeout. *)
Fixpoint process_frames (frames : list Frame.t) (transfer_id_timeout : Z)
  : M (list (option TransferFrom.t)) :=
  match frames with
  | [] => mret []
  | frame :: frames' =>
      result ← process_frame frame transfer_id_timeout;
      results ← process_frames frames' transfer_id_timeout;
      mret (result :: results)
  end.


(** No call of the sequence meets a frame that arrives past the timeout
    with a transfer-ID below the current one. *)
Fixpoint never_restarts_backwards (frames : list Frame.t)
    (transfer_id_timeout : Z) (self : TransferReassembler) : Prop :=
  match frames with
  | [] => True
  | frame :: frames' =>
      ¬ (timed_out frame transfer_id_timeout self = true
         ∧ Frame.transfer_id frame < _transfer_id self)
      ∧ match process_frame frame transfer_id_timeout self with
        | Ok (_, self', _) =>
            never_restarts_backwards frames' transfer_id_timeout self'
        | Raise _ => True
        end
  end.

(** * Properties *)

(** ** The trimmer *)

Lemma truthy_true {A : Type} (l : list A) : truthy l = true ↔ l ≠ [].
Proof. destruct l; simpl; split; congruence. Qed.

Lemma truthy_false {A : Type} (l : list A) : truthy l = false ↔ l = [].
Proof. destruct l; simpl; split; congruence. Qed.

Lemma truthy_snoc {A : Type} (l : list A) (x : A) : truthy (l ++ [x]) = true.
Proof. destruct l; reflexivity. Qed.

Lemma drop_crc_loop_zero fuel fragments :
drop_crc_loop fuel fragments 0 = Some fragments.
Proof. destruct fuel; cbn [drop_crc_loop]; rewrite andb_false_r; reflexivity. Qed.

(** One iteration of the loop on a list given by its last element. *)
Lemma drop_crc_loop_snoc fuel fragments back remaining :
drop_crc_loop (S fuel) (fragments ++ [back]) (S remaining) =
if (length back <=? S remaining)%nat
then drop_crc_loop fuel fragments (S remaining - length back)%nat
else Some (fragments ++ [take (length back - S remaining) back]).
Proof.
cbn [drop_crc_loop]. rewrite truthy_snoc, last_snoc, removelast_last.
cbn [andb Nat.ltb Nat.leb default from_option id].
destruct (length back <=? S remaining)%nat; [reflexivity|].
rewrite length_app, Nat.add_sub. cbn [length].
replace (length fragments) with (length fragments + 0)%nat at 1 by lia.
rewrite insert_app_r. cbn [list_insert].
apply drop_crc_loop_zero.
Qed.

Lemma drop_crc_loop_nil fuel remaining :
drop_crc_loop fuel [] remaining = Some [].
Proof. destruct fuel; reflexivity. Qed.

(** The retained fragments are an initial segment of the input, the last of
  them possibly cut short. *)
Definition retained_in_order (fragments result : list payload) : Prop :=
∃ kept rest,
  fragments = kept ++ rest ∧
  (result = kept ∨
   ∃ x y rest', rest = y :: rest' ∧ result = kept ++ [x] ∧
                x ≠ [] ∧ x `prefix_of` y ∧ (length x < length y)%nat).

(** The loop ends within [length fragments] iterations, and removes
  [remaining] bytes from the tail. *)
Lemma drop_crc_loop_spec fragments :
∀ fuel remaining, (length fragments ≤ fuel)%nat →
∃ result,
  drop_crc_loop fuel fragments remaining = Some result ∧
  concat result = take (length (concat fragments) - remaining) (concat fragments) ∧
  retained_in_order fragments result ∧
  ((length (concat fragments) < remaining)%nat → result = []).
Proof.
induction fragments as [|back fragments IH] using rev_ind; intros fuel remaining Hfuel.
{ exists []. rewrite drop_crc_loop_nil. repeat split; try done.
  exists [], []. auto. }
destruct remaining as [|remaining].
{ exists (fragments ++ [back]). rewrite drop_crc_loop_zero, Nat.sub_0_r, firstn_all.
  repeat split; try done; [|lia].
  exists (fragments ++ [back]), []. rewrite app_nil_r. auto. }
rewrite length_app in Hfuel. cbn [length] in Hfuel.
destruct fuel as [|fuel]; [lia|].
rewrite drop_crc_loop_snoc, concat_app, length_app. cbn [concat].
rewrite app_nil_r.
destruct (Nat.leb_spec (length back) (S remaining)) as [Hle|Hgt].
- destruct (IH fuel (S remaining - length back)%nat) as (result & -> & Hcat & Hord & Hnil);
    [lia|].
  exists result. repeat split; try done.
  + rewrite take_app_le by lia. rewrite Hcat. f_equal. lia.
  + destruct Hord as (kept & rest & -> & Hres).
    exists kept, (rest ++ [back]). split; [by rewrite app_assoc|].
    destruct Hres as [->|(x & y & rest' & -> & -> & ? & ? & ?)]; [by left|].
    right. by exists x, y, (rest' ++ [back]).
  + intros ?. apply Hnil. lia.
- eexists. split; [reflexivity|]. repeat split.
  + rewrite concat_app. cbn [concat]. rewrite app_nil_r.
    rewrite take_app_ge by lia. do 2 f_equal. lia.
  + exists fragments, [back]. split; [done|]. right.
    exists (take (length back - S remaining) back), back, [].
    repeat split; try done.
    * intros Hx. apply (f_equal length) in Hx. rewrite length_take in Hx.
      cbn [length] in Hx. lia.
    * apply prefix_take.
    * rewrite length_take. lia.
  + lia.
Qed.

(** The assertions of [_unittest_drop_crc] hold for a trailer of four bytes
  and for no other size. *)
Lemma unittest_drop_crc_fixes_crc_size (crc_size : nat) :
_unittest_drop_crc crc_size = true ↔ crc_size = 4%nat.
Proof.
split; [|intros ->; vm_compute; reflexivity].
intros H. unfold _unittest_drop_crc in H.
repeat (apply andb_prop in H; destruct H as [H _]).
apply bool_decide_eq_true in H.
do 11 (destruct crc_size as [|crc_size]; [vm_compute in H; congruence|]).
exfalso. change [mv "0123456789"] with ([] ++ [mv "0123456789"]) in H.
cbn [length app] in H. change ([mv "0123456789"]) with ([] ++ [mv "0123456789"]) in H.
rewrite drop_crc_loop_snoc in H. cbn in H. congruence.
Qed.

Lemma drop_crc_total fragments :
∃ result,
  _drop_crc fragments = Ok result ∧
  concat result = without_crc (concat fragments) ∧
  retained_in_order fragments result ∧
  ((length (concat fragments) < _CRC_SIZE_BYTES)%nat → result = []).
Proof.
destruct (drop_crc_loop_spec fragments (length fragments) _CRC_SIZE_BYTES)
  as (result & Hrun & ?); [lia|].
exists result. unfold _drop_crc. rewrite Hrun. done.
Qed.

Lemma append_loop_spec fuel : ∀ payloads index,
(S index - length payloads ≤ fuel)%nat →
append_loop fuel payloads index =
Some (payloads ++ replicate (S index - length payloads) []).
Proof.
induction fuel as [|fuel IH]; intros payloads index Hfuel; cbn [append_loop].
- destruct (Nat.leb_spec (length payloads) index); [lia|].
  replace (S index - length payloads)%nat with 0%nat by lia.
  by rewrite app_nil_r.
- destruct (Nat.leb_spec (length payloads) index).
  + rewrite IH by (rewrite length_app; cbn [length]; lia).
    rewrite length_app. cbn [length].
    replace (S index - length payloads)%nat
      with (S (S index - (length payloads + 1)))%nat by lia.
    cbn [replicate]. by rewrite <- app_assoc.
  + replace (S index - length payloads)%nat with 0%nat by lia.
    by rewrite app_nil_r.
Qed.

Lemma length_stored index fragment payloads :
length (stored index fragment payloads) = (length payloads `max` S index)%nat.
Proof.
unfold stored. rewrite length_insert, length_app, length_replicate. lia.
Qed.

Lemma lookup_stored index fragment payloads :
stored index fragment payloads !! index = Some fragment.
Proof.
unfold stored. apply list_lookup_insert_eq.
rewrite length_app, length_replicate. lia.
Qed.

Lemma stored_not_nil index fragment payloads :
stored index fragment payloads ≠ [].
Proof.
intros H. apply (f_equal length) in H. rewrite length_stored in H.
cbn [length] in H. lia.
Qed.

(** C7: [_drop_crc] returns, keeps the retained fragments in their order
    (an initial segment of the input, the last of them possibly cut short),
    and the bytes of the result are the bytes of the input without the last
    [_CRC_SIZE_BYTES]; with fewer bytes than that in the input nothing is
    left; an empty trailing fragment is popped and the budget is untouched:
    the result is that of the list without it. *)
Theorem drop_crc_removes_tail (fragments : list payload) :
  ∃ result,
    _drop_crc fragments = Ok result
    ∧ retained_in_order fragments result
    ∧ concat result = without_crc (concat fragments)
    ∧ ((length (concat fragments) < _CRC_SIZE_BYTES)%nat → result = [])
    ∧ _drop_crc (fragments ++ [[]]) = Ok result.
Proof.
  destruct (drop_crc_total fragments) as (result & Hrun & Hcat & Hord & Hnil).
  exists result. repeat split; try done.
  unfold _drop_crc in *. rewrite length_app, Nat.add_1_r.
  unfold _CRC_SIZE_BYTES at 1. rewrite drop_crc_loop_snoc.
  cbn [length Nat.leb Nat.sub]. exact Hrun.
Qed.

(** ** The finalizer *)

Lemma finalize_single timestamp priority transfer_id fragment source_node_id :
  _validate_and_finalize_transfer timestamp priority transfer_id [fragment]
                                  source_node_id =
  Ok (Some (TransferFrom.mk timestamp priority transfer_id [fragment]
                            (Some source_node_id))).
Proof. reflexivity. Qed.

Lemma finalize_multi timestamp priority transfer_id frame_payloads source_node_id :
  (2 ≤ length frame_payloads)%nat →
  ∃ trimmed,
    _drop_crc frame_payloads = Ok trimmed
    ∧ concat trimmed = without_crc (concat frame_payloads)
    ∧ _validate_and_finalize_transfer timestamp priority transfer_id
        frame_payloads source_node_id =
      if (_CRC_SIZE_BYTES <? sum_list_with length frame_payloads)%nat
         && check_residue frame_payloads
      then Ok (Some (TransferFrom.mk timestamp priority transfer_id trimmed
                                     (Some source_node_id)))
      else Ok None.
Proof.
  intros Hlen.
  destruct (drop_crc_total frame_payloads) as (trimmed & Hrun & Hcat & _).
  exists trimmed. repeat split; try done.
  unfold _validate_and_finalize_transfer. rewrite Hrun.
  destruct frame_payloads as [|? [|? ?]]; cbn [length] in Hlen; try lia.
  reflexivity.
Qed.

(** The finalizer returns whenever it is given a fragment. *)
Lemma finalize_returns timestamp priority transfer_id frame_payloads source_node_id :
  frame_payloads ≠ [] →
  ∃ result,
    _validate_and_finalize_transfer timestamp priority transfer_id
      frame_payloads source_node_id = Ok result.
Proof.
  intros Hne. destruct frame_payloads as [|p [|q rest]]; [done|by eexists|].
  destruct (finalize_multi timestamp priority transfer_id (p :: q :: rest)
              source_node_id) as (trimmed & _ & _ & ->); [cbn; lia|].
  destruct (_ && _); by eexists.
Qed.

(** C6: given a fragment list that is not empty, the finalizer returns the
    transfer with the single fragment as it is when there is exactly one;
    with two or more it returns the transfer with the CRC tail trimmed off
    the list when the total length exceeds [_CRC_SIZE_BYTES] and the residue
    check over all fragments passes, and [None] otherwise. *)
Theorem validate_and_finalize_transfer_cases
    timestamp priority transfer_id frame_payloads source_node_id :
  frame_payloads ≠ [] →
  let package fragments :=
    TransferFrom.mk timestamp priority transfer_id fragments
                    (Some source_node_id) in
  let result :=
    _validate_and_finalize_transfer timestamp priority transfer_id
                                    frame_payloads source_node_id in
  (∀ fragment, frame_payloads = [fragment] →
     result = Ok (Some (package [fragment])))
  ∧ ((2 ≤ length frame_payloads)%nat →
     ∃ trimmed,
       _drop_crc frame_payloads = Ok trimmed
       ∧ concat trimmed = without_crc (concat frame_payloads)
       ∧ (((_CRC_SIZE_BYTES < sum_list_with length frame_payloads)%nat
           ∧ check_residue frame_payloads = true) →
          result = Ok (Some (package trimmed)))
       ∧ (¬ ((_CRC_SIZE_BYTES < sum_list_with length frame_payloads)%nat
             ∧ check_residue frame_payloads = true) →
          result = Ok None)).
Proof.
  intros _ package result. split.
  - intros fragment ->. apply finalize_single.
  - intros Hlen.
    destruct (finalize_multi timestamp priority transfer_id frame_payloads
                source_node_id Hlen) as (trimmed & Hrun & Hcat & Hres).
    exists trimmed. repeat split; try done; subst result; rewrite Hres.
    + intros [Hsize ->]. apply Nat.ltb_lt in Hsize. by rewrite Hsize.
    + intros Hnot. destruct (Nat.ltb_spec _CRC_SIZE_BYTES
                               (sum_list_with length frame_payloads));
        [|reflexivity].
      destruct (check_residue frame_payloads); [|reflexivity].
      exfalso. apply Hnot. by split.
Qed.

(** ** The state machine, one call *)
Ltac run_M :=
  unfold _restart, _on_error_callback, assert, skip, raise, lift, terminated,
    get_self, assign, mbind, mret, M_bind, M_ret.

Lemma restarted_fields timestamp transfer_id self :
  restarted timestamp transfer_id self =
  mkReassembler (_source_node_id self) (_max_payload_size_bytes self)
                [] None timestamp transfer_id.
Proof. reflexivity. Qed.

Lemma restart_run timestamp transfer_id error self :
  _restart timestamp transfer_id error self =
  Ok (tt, restarted timestamp transfer_id self,
      match error with Some e => [OnError e self] | None => [] end).
Proof. run_M. by destruct error. Qed.

Lemma assert_true (c : bool) self : c = true → assert c self = Ok (tt, self, []).
Proof. by intros ->. Qed.

Local Arguments append_loop : simpl never.

Ltac simp_run :=
  cbn -[append_loop Z.sub Z.add Z.ltb Z.eqb replicate Nat.sub Z.max Z.of_nat
        Nat.ltb Nat.leb Nat.eqb forallb].

Ltac split_if :=
  match goal with
  | |- context [if ?c then _ else _] => destruct c eqn:?
  | |- context [match ?c with Some _ => _ | None => _ end] => destruct c eqn:?
  end.

Ltac contra_bool :=
  match goal with
  | H : ?a = true, H' : ?b = false |- _ =>
      exfalso; apply (eq_true_false_abs b); [exact H | exact H']
  end.

Ltac bools :=
  repeat match goal with
  | H : _ || _ = false |- _ => apply orb_false_elim in H as [? ?]
  | H : _ && _ = true |- _ => apply andb_prop in H as [? ?]
  | H : (_ <? _) = true |- _ => apply Z.ltb_lt in H
  | H : (_ <? _) = false |- _ => apply Z.ltb_ge in H
  | H : (_ =? _) = true |- _ => apply Z.eqb_eq in H
  | H : (_ =? _) = false |- _ => apply Z.eqb_neq in H
  end.

Ltac bool_arith :=
  exfalso;
  repeat match goal with
  | H : _ || _ = false |- _ => apply orb_false_elim in H as [? ?]
  | H : _ && _ = true |- _ => apply andb_prop in H as [? ?]
  | H : (_ <? _) = true |- _ => apply Z.ltb_lt in H
  | H : (_ <? _) = false |- _ => apply Z.ltb_ge in H
  | H : (_ =? _) = true |- _ => apply Z.eqb_eq in H
  | H : (_ =? _) = false |- _ => apply Z.eqb_neq in H
  end; solve [lia | congruence].

Ltac elems :=
  repeat match goal with
  | H : _ ∈ _ ++ _ |- _ => apply elem_of_app in H as [H|H]
  | H : _ ∈ _ :: _ |- _ => apply elem_of_cons in H as [H|H]
  | H : _ ∈ [] |- _ => by apply not_elem_of_nil in H
  end.

Ltac nats :=
  repeat match goal with
  | H : negb _ = true |- _ => apply negb_true_iff in H
  | H : negb _ = false |- _ => apply negb_false_iff in H
  | H : (_ =? _)%nat = true |- _ => apply Nat.eqb_eq in H
  | H : (_ =? _)%nat = false |- _ => apply Nat.eqb_neq in H
  end.

Lemma accept_frame_run frame transfer_id_timeout self :
  accept_frame frame transfer_id_timeout self =
  Ok (accept_frame_effect frame transfer_id_timeout self).
Proof.
  destruct self as [src lim payloads max_index ts tid].
  destruct frame as [fts prio ftid idx eot fragment].
  unfold accept_frame, accept_frame_effect, malformed, new_transfer, timed_out,
    restarted, stored.
  run_M.
  repeat (simp_run; rewrite ?append_loop_spec by lia; split_if);
    simp_run; rewrite ?app_nil_r; try reflexivity; try contra_bool;
    try bool_arith.
  all: exfalso; destruct max_index as [m|]; cbn [andb negb] in *;
    [destruct (m =? idx)%nat|]; cbn [negb] in *; congruence.
Qed.

Lemma complete_transfer_run frame self :
  complete_transfer frame self =
  match _max_index self with
  | None => Ok (None, self, [])
  | Some m =>
      if (0 <? m)%nat && negb (forallb truthy (_payloads self))
      then Ok (None, self, [])
      else if Z.of_nat m =? Z.of_nat (length (_payloads self)) - 1 then
        match _validate_and_finalize_transfer
                (_timestamp self) (Frame.priority frame)
                (Frame.transfer_id frame) (_payloads self)
                (_source_node_id self) with
        | Ok result =>
            Ok (result,
                restarted (Frame.timestamp frame) (Frame.transfer_id frame + 1)
                          self,
                match result with
                | None => [OnError MULTIFRAME_INTEGRITY_ERROR self]
                | Some _ => []
                end)
        | Raise e => Raise e
        end
      else Raise AssertionError
  end.
Proof.
  destruct self as [src lim payloads max_index ts tid].
  unfold complete_transfer, restarted. run_M. simp_run.
  destruct max_index as [m|]; simp_run; [|reflexivity].
  destruct ((0 <? m)%nat && _) eqn:Hwait; simp_run; [reflexivity|].
  destruct (_ =? _); simp_run; [|reflexivity].
  replace (match m with 0%nat => true | S _ => forallb truthy payloads end)
    with true.
  2:{ destruct m; [reflexivity|]. cbn [Nat.ltb Nat.leb andb] in Hwait.
      by destruct (forallb truthy payloads). }
  simp_run.
  destruct (_validate_and_finalize_transfer _ _ _ _ _) as [[result|]|];
    reflexivity.
Qed.

Lemma process_frame_run frame transfer_id_timeout self :
  process_frame frame transfer_id_timeout self =
  match accept_frame_effect frame transfer_id_timeout self with
  | (true, s, log0) =>
      match complete_transfer frame s with
      | Ok (result, s', log1) => Ok (result, s', log0 ++ log1)
      | Raise e => Raise e
      end
  | (false, s, log0) => Ok (None, s, log0)
  end.
Proof.
  unfold process_frame, mbind, M_bind. rewrite accept_frame_run.
  destruct (accept_frame_effect _ _ _) as [[[] s] log0]; [reflexivity|].
  unfold mret, M_ret. by rewrite app_nil_r.
Qed.

(** What a frame that is not malformed meets when no new transfer is
    detected and its transfer-ID is below the current one. *)
Lemma accept_frame_effect_stale frame transfer_id_timeout self :
  malformed frame = false →
  timed_out frame transfer_id_timeout self = false →
  Frame.transfer_id frame < _transfer_id self →
  accept_frame_effect frame transfer_id_timeout self = (false, self, []).
Proof.
  intros Hmal Htime Hlt. unfold accept_frame_effect, new_transfer.
  rewrite Hmal, Htime.
  replace (_transfer_id self <? Frame.transfer_id frame) with false
    by (symmetry; apply Z.ltb_ge; lia).
  cbn [orb andb].
  by replace (Frame.transfer_id frame <? _transfer_id self) with true
    by (symmetry; apply Z.ltb_lt; lia).
Qed.

(** What holds when control reaches the completion check. *)
Lemma accept_frame_effect_reached frame transfer_id_timeout self s log :
  accept_frame_effect frame transfer_id_timeout self = (true, s, log) →
  malformed frame = false
  ∧ _transfer_id s = Frame.transfer_id frame
  ∧ _source_node_id s = _source_node_id self
  ∧ _max_payload_size_bytes s = _max_payload_size_bytes self
  ∧ _payloads s !! Frame.index frame = Some (Frame.payload frame)
  ∧ (∀ m, _max_index s = Some m → (length (_payloads s) ≤ S m)%nat)
  ∧ (Frame.end_of_transfer frame = true →
     _max_index s = Some (Frame.index frame))
  ∧ _pure_payload_size_bytes s ≤ _max_payload_size_bytes s.
Proof.
  destruct self as [src lim payloads max_index ts tid].
  unfold accept_frame_effect, new_transfer, timed_out, restarted.
  intros H. repeat case_match; simplify_eq; cbn in *.
  all: repeat split; try done; try apply lookup_stored.
  all: try (intros m ?; simplify_eq; rewrite length_stored; cbn [length] in *).
  all: bools; lia.
Qed.

(** The frame gets stored exactly when none of the five returns of lines
    104 to 148 is taken; the instance is then [with_frame]. *)
Lemma accept_frame_effect_true frame transfer_id_timeout self s log :
  accept_frame_effect frame transfer_id_timeout self = (true, s, log)
  ↔ malformed frame = false
    ∧ _transfer_id (with_frame frame transfer_id_timeout self)
      = Frame.transfer_id frame
    ∧ (new_transfer frame transfer_id_timeout self = false →
       Frame.end_of_transfer frame = true →
       ∀ n, _max_index self = Some n → n = Frame.index frame)
    ∧ (∀ m, _max_index (with_frame frame transfer_id_timeout self) = Some m →
            (length (_payloads (with_frame frame transfer_id_timeout self))
             ≤ S m)%nat)
    ∧ _pure_payload_size_bytes (with_frame frame transfer_id_timeout self)
      ≤ _max_payload_size_bytes self
    ∧ s = with_frame frame transfer_id_timeout self
    ∧ log = (if new_transfer frame transfer_id_timeout self
                && truthy (_payloads self)
             then [OnError MULTIFRAME_MISSING_FRAMES self] else []).
Proof.
  destruct self as [src lim payloads max_index ts tid].
  unfold accept_frame_effect, with_frame, restarted, _pure_payload_size_bytes.
  cbn [_source_node_id _max_payload_size_bytes _payloads _max_index
       _timestamp _transfer_id].
  split.
  - intros H. repeat case_match; simplify_eq; cbn -[stored] in *.
    all: repeat split; try done.
    all: try (intros; simplify_eq; rewrite ?length_stored; cbn [length] in *).
    all: unfold new_transfer in *; cbn [_transfer_id] in *.
    all: bools; nats; simplify_eq; try done; solve [lia | congruence].
  - intros (Hmal & Htid & Hincons & Hbound & Hsize & -> & ->).
    rewrite Hmal. revert Htid Hincons Hbound Hsize.
    repeat case_match; simplify_eq; cbn -[stored] in *; intros.
    all: try reflexivity.
    all: exfalso; unfold new_transfer in *; cbn [_transfer_id] in *.
    all: try specialize (Hincons eq_refl eq_refl _ eq_refl).
    all: try specialize (Hbound _ eq_refl).
    all: rewrite ?length_stored in *; bools; nats; simplify_eq.
    all: try solve [done | lia | congruence].
    all: try match goal with Hne : _ ≠ _ |- _ => apply Hne; by apply Hincons end.
    all: pose proof (Hbound _ eq_refl) as Hb; lia.
Qed.

Lemma finalize_some_fields timestamp priority transfer_id frame_payloads
    source_node_id T :
  _validate_and_finalize_transfer timestamp priority transfer_id
    frame_payloads source_node_id = Ok (Some T) →
  TransferFrom.timestamp T = timestamp
  ∧ TransferFrom.priority T = priority
  ∧ TransferFrom.transfer_id T = transfer_id
  ∧ TransferFrom.source_node_id T = Some source_node_id.
Proof.
  unfold _validate_and_finalize_transfer. intros H.
  repeat case_match; by simplify_eq.
Qed.

Lemma forallb_truthy_lookup (payloads : list payload) :
  forallb truthy payloads = true ↔
  ∀ i, (i < length payloads)%nat →
       ∃ fragment, payloads !! i = Some fragment ∧ fragment ≠ [].
Proof.
  rewrite forallb_forall. split.
  - intros Hall i Hi. destruct (lookup_lt_is_Some_2 payloads i Hi) as [x Hx].
    exists x. split; [done|]. apply truthy_true, Hall.
    apply list_elem_of_In. by eapply list_elem_of_lookup_2.
  - intros Hall x [i Hi]%list_elem_of_In%list_elem_of_lookup.
    destruct (Hall i) as (y & Hy & ?); [by eapply lookup_lt_Some|].
    apply truthy_true. rewrite Hi in Hy. by injection Hy as ->.
Qed.

(** A call that returns a transfer went through the completion check and the
    finalizer. *)
Lemma process_frame_emits frame transfer_id_timeout self T self' log :
  process_frame frame transfer_id_timeout self = Ok (Some T, self', log) →
  ∃ s m,
    accept_frame_effect frame transfer_id_timeout self = (true, s, log)
    ∧ _max_index s = Some m
    ∧ length (_payloads s) = S m
    ∧ (m = 0%nat ∨ forallb truthy (_payloads s) = true)
    ∧ _validate_and_finalize_transfer (_timestamp s) (Frame.priority frame)
        (Frame.transfer_id frame) (_payloads s) (_source_node_id s)
      = Ok (Some T)
    ∧ self' = restarted (Frame.timestamp frame) (Frame.transfer_id frame + 1) s.
Proof.
  rewrite process_frame_run.
  destruct (accept_frame_effect _ _ _) as [[[] s] log0]; [|done].
  rewrite complete_transfer_run.
  destruct (_max_index s) as [m|] eqn:Hmax; [|done].
  destruct ((0 <? m)%nat && _) eqn:Hwait; [done|].
  destruct (Z.eqb_spec (Z.of_nat m) (Z.of_nat (length (_payloads s)) - 1));
    [|done].
  destruct (_validate_and_finalize_transfer _ _ _ _ _) as [[T'|]|] eqn:Hfin;
    [|done..].
  intros [= -> <- <-]. exists s, m. rewrite app_nil_r.
  repeat split; try done; [lia|].
  destruct m; [by left|right]. cbn [Nat.ltb Nat.leb andb] in Hwait.
  by destruct (forallb truthy (_payloads s)).
Qed.

(** The converse: a complete fragment list that the finalizer accepts is
    returned. *)
Lemma process_frame_completes frame transfer_id_timeout self s log m T :
  accept_frame_effect frame transfer_id_timeout self = (true, s, log) →
  _max_index s = Some m →
  (m = 0%nat ∨ ∀ i, (i ≤ m)%nat →
                 ∃ fragment, _payloads s !! i = Some fragment ∧ fragment ≠ []) →
  _validate_and_finalize_transfer (_timestamp s) (Frame.priority frame)
    (Frame.transfer_id frame) (_payloads s) (_source_node_id s)
  = Ok (Some T) →
  process_frame frame transfer_id_timeout self =
  Ok (Some T, restarted (Frame.timestamp frame) (Frame.transfer_id frame + 1) s,
      log).
Proof.
  intros Hacc Hmax Hfull Hfin. rewrite process_frame_run, Hacc.
  apply accept_frame_effect_reached in Hacc
    as (_ & _ & _ & _ & Hlookup & Hbound & _).
  specialize (Hbound m Hmax). apply lookup_lt_Some in Hlookup.
  assert (length (_payloads s) = S m) as Hlen.
  { destruct Hfull as [->|Hfull]; [lia|].
    destruct (Hfull m) as (x & Hx%lookup_lt_Some & _); lia. }
  rewrite complete_transfer_run, Hmax, Hlen, Hfin.
  replace ((0 <? m)%nat && negb (forallb truthy (_payloads s))) with false.
  - replace (Z.of_nat m =? Z.of_nat (S m) - 1) with true
      by (symmetry; apply Z.eqb_eq; lia).
    by rewrite app_nil_r.
  - symmetry. destruct Hfull as [->|Hfull]; [done|].
    replace (forallb truthy (_payloads s)) with true; [by rewrite andb_false_r|].
    symmetry. apply forallb_truthy_lookup. intros i Hi. apply Hfull. lia.
Qed.

(** ** Emission *)

(** C2: [process_frame] returns a transfer exactly when the frame gets
    stored (none of the returns of lines 104 to 148 is taken: the frame is
    not an empty frame of a multi-frame transfer, it starts a new transfer or
    carries the current transfer-ID, it brings no second end of transfer,
    and the size stays within the limit), and then, of the instance
    [with_frame] that holds it, the last index is known, the fragment list
    ends there, that index is zero or every position up to it holds a
    fragment that is not empty, and the finalizer returns the transfer.  The
    transfer carries the first timestamp, the priority of the completing
    frame and the current transfer-ID; the instance is left reset, with the
    frame's transfer-ID plus one and the frame's timestamp; and the only
    report is that of the transfer the frame may have pre-empted. *)
Theorem process_frame_returns_transfer frame transfer_id_timeout self T self' log :
  process_frame frame transfer_id_timeout self = Ok (Some T, self', log)
  ↔ let s := with_frame frame transfer_id_timeout self in
    malformed frame = false
    ∧ _transfer_id s = Frame.transfer_id frame
    ∧ (new_transfer frame transfer_id_timeout self = false →
       Frame.end_of_transfer frame = true →
       ∀ n, _max_index self = Some n → n = Frame.index frame)
    ∧ _pure_payload_size_bytes s ≤ _max_payload_size_bytes s
    ∧ _payloads s !! Frame.index frame = Some (Frame.payload frame)
    ∧ (∃ m, _max_index s = Some m
            ∧ length (_payloads s) = S m
            ∧ (m = 0%nat
               ∨ ∀ i, (i ≤ m)%nat →
                      ∃ fragment,
                        _payloads s !! i = Some fragment ∧ fragment ≠ []))
    ∧ _validate_and_finalize_transfer (_timestamp s) (Frame.priority frame)
        (_transfer_id s) (_payloads s) (_source_node_id s)
      = Ok (Some T)
    ∧ TransferFrom.timestamp T = _timestamp s
    ∧ TransferFrom.priority T = Frame.priority frame
    ∧ TransferFrom.transfer_id T = _transfer_id s
    ∧ self' = restarted (Frame.timestamp frame)
                        (Frame.transfer_id frame + 1) s
    ∧ _transfer_id self' = Frame.transfer_id frame + 1
    ∧ _timestamp self' = Frame.timestamp frame
    ∧ _payloads self' = [] ∧ _max_index self' = None
    ∧ log = (if new_transfer frame transfer_id_timeout self
                && truthy (_payloads self)
             then [OnError MULTIFRAME_MISSING_FRAMES self] else []).
Proof.
  cbv zeta. split.
  - intros (s & m & Hacc & Hmax & Hlen & Hfull & Hfin & ->)%process_frame_emits.
    destruct (finalize_some_fields _ _ _ _ _ _ Hfin) as (? & ? & ? & _).
    apply accept_frame_effect_true in Hacc
      as (Hmal & Htid & Hincons & _ & Hsize & -> & ->).
    rewrite Htid. repeat split; try done.
    + apply lookup_stored.
    + exists m. repeat split; try done.
      destruct Hfull as [->|Hfull]; [by left|right].
      intros i Hi. eapply forallb_truthy_lookup; [done|lia].
  - intros (Hmal & Htid & Hincons & Hsize & _ & (m & Hmax & Hlen & Hfull)
            & Hfin & _ & _ & _ & -> & _ & _ & _ & _ & ->).
    rewrite Htid in Hfin.
    eapply process_frame_completes; try done.
    apply accept_frame_effect_true. repeat split; try done.
    intros m' Hm'. rewrite Hmax in Hm'. injection Hm' as <-. lia.
Qed.

Lemma length_concat_sum (fragments : list payload) :
  length (concat fragments) = sum_list_with length fragments.
Proof.
  induction fragments as [|x l IH]; [done|].
  cbn [concat sum_list_with]. rewrite length_app. lia.
Qed.

(** C5, as amended: the CRC trailer occupies [_CRC_SIZE_BYTES] = 4 bytes,
    the size the assertions of the trimmer's unit test hold for; every
    emitted transfer assembled from two or more fragments is the held
    fragment list with exactly its last four bytes removed. *)
Theorem emitted_transfer_drops_four_bytes
    frame transfer_id_timeout self T self' log :
  process_frame frame transfer_id_timeout self = Ok (Some T, self', log) →
  _CRC_SIZE_BYTES = 4%nat
  ∧ (∀ crc_size, _unittest_drop_crc crc_size = true → crc_size = _CRC_SIZE_BYTES)
  ∧ ∃ s,
      accept_frame frame transfer_id_timeout self = Ok (true, s, log)
      ∧ ((2 ≤ length (_payloads s))%nat →
         ∃ trailer,
           length trailer = 4%nat
           ∧ concat (_payloads s) =
             concat (TransferFrom.fragmented_payload T) ++ trailer).
Proof.
  intros (s & m & Hacc & Hmax & Hlen & Hfull & Hfin & ->)%process_frame_emits.
  split; [done|]. split; [by intros ? ?%unittest_drop_crc_fixes_crc_size|].
  exists s. rewrite accept_frame_run, Hacc. split; [done|]. intros Hmulti.
  destruct (finalize_multi (_timestamp s) (Frame.priority frame)
              (Frame.transfer_id frame) (_payloads s) (_source_node_id s) Hmulti)
    as (trimmed & _ & Hcat & Hres).
  rewrite Hres in Hfin.
  destruct (Nat.ltb_spec _CRC_SIZE_BYTES (sum_list_with length (_payloads s)))
    as [Hsize|]; [|done].
  destruct (check_residue (_payloads s)); [|done].
  injection Hfin as <-. cbn [TransferFrom.fragmented_payload].
  rewrite <- length_concat_sum in Hsize.
  exists (drop (length (concat (_payloads s)) - _CRC_SIZE_BYTES)
               (concat (_payloads s))).
  split.
  - rewrite length_drop. unfold _CRC_SIZE_BYTES in *. lia.
  - rewrite Hcat. unfold without_crc. by rewrite take_drop.
Qed.

(** C10: after [process_frame] has emitted the transfer that the instance
    [s] held, completed by [frame], every frame of that transfer that
    arrives within the transfer-ID timeout of the completing frame's
    timestamp is dropped: [None] is returned, the callback is not invoked,
    and the instance stays as it is, with the transfer-ID already advanced
    past the transfer. *)
Theorem process_frame_after_emission
    frame transfer_id_timeout self T self' log s log0 again :
  process_frame frame transfer_id_timeout self = Ok (Some T, self', log) →
  accept_frame frame transfer_id_timeout self = Ok (true, s, log0) →
  frame_of_transfer again s →
  Timestamp.monotonic_ns (Frame.timestamp again)
  - Timestamp.monotonic_ns (Frame.timestamp frame) ≤ transfer_id_timeout →
  Frame.transfer_id again = TransferFrom.transfer_id T
  ∧ _transfer_id self' = TransferFrom.transfer_id T + 1
  ∧ process_frame again transfer_id_timeout self' = Ok (None, self', []).
Proof.
  intros (s' & m & Hacc & Hmax & Hlen & Hfull & Hfin & ->)%process_frame_emits.
  rewrite accept_frame_run, Hacc. intros [= <- <-] (Htid & Hheld & Heot) Htime.
  destruct (accept_frame_effect_reached _ _ _ _ _ Hacc) as (_ & Hcur & _).
  destruct (finalize_some_fields _ _ _ _ _ _ Hfin) as (_ & _ & HT & _).
  rewrite HT. split; [congruence|]. split; [done|].
  rewrite process_frame_run, accept_frame_effect_stale; try done.
  - unfold malformed. destruct Hfull as [->|Hall].
    + assert (Frame.index again = 0%nat) as Hidx
        by (apply lookup_lt_Some in Hheld; lia).
      rewrite Hidx in *. rewrite (proj2 Heot Hmax). done.
    + destruct (proj1 (forallb_truthy_lookup _) Hall (Frame.index again))
        as (x & Hx & Hne); [by eapply lookup_lt_Some|].
      rewrite Hheld in Hx. injection Hx as <-.
      apply truthy_true in Hne. rewrite Hne. by rewrite andb_false_r.
  - unfold timed_out. rewrite restarted_fields. cbn. apply Z.ltb_ge. lia.
  - rewrite restarted_fields. cbn. lia.
Qed.

(** ** Stale and malformed frames *)

(** C8: a frame with an empty payload that is not a single-frame transfer
    makes [process_frame] invoke the callback with [MULTIFRAME_EMPTY_FRAME],
    return [None] and leave every field of the instance as it was. *)
Theorem process_frame_empty_frame frame transfer_id_timeout self :
  Frame.payload frame = [] →
  Frame.single_frame_transfer frame = false →
  process_frame frame transfer_id_timeout self =
  Ok (None, self, [OnError MULTIFRAME_EMPTY_FRAME self]).
Proof.
  intros Hempty Hmulti. rewrite process_frame_run.
  unfold accept_frame_effect, malformed.
  unfold Frame.single_frame_transfer in Hmulti.
  by rewrite Hmulti, Hempty.
Qed.

(** C1, as amended: a frame whose transfer-ID is below the current one and
    which does not arrive later than the transfer-ID timeout after the first
    timestamp is dropped: [process_frame] returns [None] and leaves the
    instance as it was; the callback is not invoked unless the frame is a
    malformed empty one, which is reported as [MULTIFRAME_EMPTY_FRAME]. *)
Theorem process_frame_stale_frame frame transfer_id_timeout self :
  Frame.transfer_id frame < _transfer_id self →
  Timestamp.monotonic_ns (Frame.timestamp frame)
  - Timestamp.monotonic_ns (_timestamp self) ≤ transfer_id_timeout →
  process_frame frame transfer_id_timeout self =
  Ok (None, self,
      if malformed frame then [OnError MULTIFRAME_EMPTY_FRAME self] else []).
Proof.
  intros Hlt Htime. rewrite process_frame_run.
  destruct (malformed frame) eqn:Hmal.
  - unfold accept_frame_effect. by rewrite Hmal.
  - rewrite accept_frame_effect_stale; try done.
    unfold timed_out. apply Z.ltb_ge. lia.
Qed.

(** ** The callback and the restart *)

(** The callback invocations of [accept_frame], with what each one sees. *)
Lemma accept_frame_effect_events frame transfer_id_timeout self b s log error seen :
  accept_frame_effect frame transfer_id_timeout self = (b, s, log) →
  OnError error seen ∈ log →
  (error = MULTIFRAME_EMPTY_FRAME ∧ seen = self ∧ s = self ∧ b = false)
  ∨ (error = MULTIFRAME_MISSING_FRAMES ∧ seen = self ∧ _payloads self ≠ [])
  ∨ (aborts error = true ∧ b = false ∧ holds_transfer seen
     ∧ _transfer_id seen = Frame.transfer_id frame
     ∧ s = restarted (Frame.timestamp frame) (Frame.transfer_id frame + 1) seen).
Proof.
  destruct self as [src lim payloads max_index ts tid].
  unfold accept_frame_effect, new_transfer, timed_out, restarted, holds_transfer.
  intros H Hin. repeat case_match; simplify_eq; cbn in *.
  all: repeat match goal with
       | H : _ ∈ _ ++ _ |- _ => apply elem_of_app in H as [H|H]
       | H : _ ∈ _ :: _ |- _ => apply elem_of_cons in H as [H|H]
       | H : _ ∈ [] |- _ => by apply not_elem_of_nil in H
       end; simplify_eq.
  all: first
    [ by left
    | right; left; repeat split; try done; by apply truthy_true
    | right; right; cbn; repeat split; try done;
      first [ bools; lia
            | left; apply stored_not_nil
            | right; by eexists ] ].
Qed.

(** What the callback sees at each error that lines 104 to 148 report. *)
Lemma accept_frame_effect_seen frame transfer_id_timeout self b s log error seen :
  accept_frame_effect frame transfer_id_timeout self = (b, s, log) →
  OnError error seen ∈ log →
  match error with
  | MULTIFRAME_EMPTY_FRAME => seen = self ∧ s = self ∧ b = false
  | MULTIFRAME_MISSING_FRAMES => seen = self ∧ _payloads self ≠ []
  | MULTIFRAME_EOT_INCONSISTENT =>
      seen = self
      ∧ s = restarted (Frame.timestamp frame) (Frame.transfer_id frame + 1) seen
      ∧ b = false
  | MULTIFRAME_EOT_MISPLACED =>
      seen = set_max_index
               (if Frame.end_of_transfer frame
                then Some (Frame.index frame) else _max_index self) self
      ∧ s = restarted (Frame.timestamp frame) (Frame.transfer_id frame + 1) seen
      ∧ b = false
  | PAYLOAD_SIZE_EXCEEDS_LIMIT =>
      seen = with_frame frame transfer_id_timeout self
      ∧ s = restarted (Frame.timestamp frame) (Frame.transfer_id frame + 1) seen
      ∧ b = false
  | MULTIFRAME_INTEGRITY_ERROR => False
  end.
Proof.
  destruct self as [src lim payloads max_index ts tid].
  unfold accept_frame_effect, with_frame, restarted.
  intros H Hin. repeat case_match; simplify_eq; cbn -[stored] in *.
  all: elems; simplify_eq; try done.
  all: unfold new_transfer in *; cbn [_transfer_id] in *.
  all: try (exfalso; bools; nats; simplify_eq; solve [done | lia | congruence]).
  all: repeat split; try done; try (by apply truthy_true).
  all: bools; nats; f_equal; solve [done | lia | congruence].
Qed.

(** C9, as amended: the callback runs before the four assignments of the
    [_restart] that reports the error, and what it sees is the instance as
    [process_frame] has brought it to that point, which is not always the
    instance as the call found it.  For [_restart] itself: the callback sees
    the instance as it was on entry.  For [process_frame]:
    [MULTIFRAME_EMPTY_FRAME] (no reset at all), [MULTIFRAME_MISSING_FRAMES]
    and [MULTIFRAME_EOT_INCONSISTENT] are reported with the instance as the
    call found it; [MULTIFRAME_EOT_MISPLACED] with that instance but for the
    last index, which line 129 has set when the frame has the
    end-of-transfer flag; [PAYLOAD_SIZE_EXCEEDS_LIMIT] and
    [MULTIFRAME_INTEGRITY_ERROR] with the instance [with_frame] in which the
    frame is stored, and which a frame that started a new transfer has
    already reset once.  In each of the last four cases the call returns
    [None] and leaves what the callback saw restarted at the frame's
    transfer-ID plus one. *)
Theorem error_callback_precedes_restart :
  (∀ timestamp transfer_id error self,
     _restart timestamp transfer_id (Some error) self =
     Ok (tt, restarted timestamp transfer_id self, [OnError error self]))
  ∧ (∀ frame transfer_id_timeout self result self' log error seen,
       process_frame frame transfer_id_timeout self = Ok (result, self', log) →
       OnError error seen ∈ log →
       let aborted :=
         result = None
         ∧ self' = restarted (Frame.timestamp frame)
                             (Frame.transfer_id frame + 1) seen in
       match error with
       | MULTIFRAME_EMPTY_FRAME => seen = self ∧ self' = self
       | MULTIFRAME_MISSING_FRAMES => seen = self ∧ _payloads self ≠ []
       | MULTIFRAME_EOT_INCONSISTENT => seen = self ∧ aborted
       | MULTIFRAME_EOT_MISPLACED =>
           seen = set_max_index
                    (if Frame.end_of_transfer frame
                     then Some (Frame.index frame) else _max_index self) self
           ∧ aborted
       | PAYLOAD_SIZE_EXCEEDS_LIMIT | MULTIFRAME_INTEGRITY_ERROR =>
           seen = with_frame frame transfer_id_timeout self ∧ aborted
       end).
Proof.
  split; [intros; apply restart_run|].
  intros frame transfer_id_timeout self result self' log error seen.
  cbv zeta. rewrite process_frame_run.
  destruct (accept_frame_effect _ _ _) as [[reached s] log0] eqn:Hacc.
  pose proof (accept_frame_effect_seen _ _ _ _ _ _ error seen Hacc) as Hearly.
  destruct reached.
  - apply accept_frame_effect_true in Hacc as Htrue.
    destruct Htrue as (_ & _ & _ & _ & _ & Hs & _).
    destruct (complete_transfer frame s) as [[[r s'] log1]|] eqn:Hdone;
      [|done].
    intros [= <- <- <-] [Hin|Hin]%elem_of_app.
    + specialize (Hearly Hin).
      destruct error; try done; by destruct Hearly as (_ & _ & [=]).
    + revert Hdone Hin. rewrite complete_transfer_run.
      repeat case_match; intros; simplify_eq; elems; by simplify_eq.
  - intros [= <- <- <-] Hin. specialize (Hearly Hin).
    destruct error; try done; by destruct Hearly as (? & ? & _).
Qed.


(** ** The current transfer-ID *)

Lemma accept_frame_effect_transfer_id frame transfer_id_timeout self b s log :
  accept_frame_effect frame transfer_id_timeout self = (b, s, log) →
  (_transfer_id s = _transfer_id self
   ∨ (new_transfer frame transfer_id_timeout self = true
      ∧ _transfer_id s = Frame.transfer_id frame)
   ∨ (b = false ∧ _transfer_id s = Frame.transfer_id frame + 1))
  ∧ (_transfer_id s < _transfer_id self →
     timed_out frame transfer_id_timeout self = true
     ∧ Frame.transfer_id frame < _transfer_id self)
  ∧ (b = true → _transfer_id self ≤ Frame.transfer_id frame
                ∨ timed_out frame transfer_id_timeout self = true).
Proof.
  destruct self as [src lim payloads max_index ts tid].
  unfold accept_frame_effect, new_transfer, restarted.
  destruct (timed_out _ _ _) eqn:Htime.
  all: intros H; repeat case_match; simplify_eq; cbn in *.
  all: repeat split; try (intros; bools; lia); try done; auto.
  all: try (right; left; split; [done|bools; lia]).
  all: try (intros; left; bools; lia).
  all: left; bools; lia.
Qed.

Lemma process_frame_transfer_id frame transfer_id_timeout self result self' log :
  process_frame frame transfer_id_timeout self = Ok (result, self', log) →
  (_transfer_id self' = _transfer_id self
   ∨ (new_transfer frame transfer_id_timeout self = true
      ∧ _transfer_id self' = Frame.transfer_id frame)
   ∨ _transfer_id self' = Frame.transfer_id frame + 1)
  ∧ (_transfer_id self' < _transfer_id self →
     timed_out frame transfer_id_timeout self = true
     ∧ Frame.transfer_id frame < _transfer_id self).
Proof.
  rewrite process_frame_run.
  destruct (accept_frame_effect _ _ _) as [[reached s] log0] eqn:Hacc.
  destruct (accept_frame_effect_transfer_id _ _ _ _ _ _ Hacc)
    as (Hstep & Hback & Hreach).
  destruct reached.
  2:{ intros [= <- <- <-]. split; [|done].
      destruct Hstep as [?|[?|[_ ?]]]; auto. }
  destruct (accept_frame_effect_reached _ _ _ _ _ Hacc) as (_ & Htid & _).
  rewrite complete_transfer_run.
  intros Hrun.
  assert (self' = s ∨ _transfer_id self' = Frame.transfer_id frame + 1) as [->|Hnext].
  { revert Hrun. repeat case_match; intros; simplify_eq; auto. }
  - split; [|done]. destruct Hstep as [?|[?|[? _]]]; auto. done.
  - split; [by right; right|]. intros Hlt.
    destruct Hreach as [Hle|Htime]; [done|lia|].
    split; [done|]. destruct Hstep as [Heq|[[_ Heq]|[? _]]]; [lia|lia|done].
Qed.

(** The instance stays consistent, and on a consistent instance no
    assertion fails: the call returns. *)
Lemma accept_frame_effect_consistent frame transfer_id_timeout self b s log :
  consistent self →
  accept_frame_effect frame transfer_id_timeout self = (b, s, log) →
  consistent s.
Proof.
  destruct self as [src lim payloads max_index ts tid].
  unfold consistent, accept_frame_effect, restarted. cbn [_max_index _payloads].
  intros Hself H. repeat case_match; simplify_eq; cbn in *; try done.
  all: intros m' ?; simplify_eq; rewrite length_stored; cbn [length] in *.
  all: try (specialize (Hself _ eq_refl)); bools; lia.
Qed.

Lemma process_frame_returns frame transfer_id_timeout self :
  consistent self →
  ∃ result self' log,
    process_frame frame transfer_id_timeout self = Ok (result, self', log)
    ∧ consistent self'.
Proof.
  intros Hself. rewrite process_frame_run.
  destruct (accept_frame_effect _ _ _) as [[reached s] log0] eqn:Hacc.
  pose proof (accept_frame_effect_consistent _ _ _ _ _ _ Hself Hacc) as Hs.
  destruct reached; [|by eauto].
  destruct (accept_frame_effect_reached _ _ _ _ _ Hacc)
    as (_ & _ & _ & _ & Hheld & _).
  rewrite complete_transfer_run.
  destruct (_max_index s) as [m|] eqn:Hmax; [|by eauto].
  destruct (_ && _); [by eauto|].
  rewrite (Hs m Hmax).
  replace (Z.of_nat m =? Z.of_nat (S m) - 1) with true
    by (symmetry; apply Z.eqb_eq; lia).
  destruct (finalize_returns (_timestamp s) (Frame.priority frame)
              (Frame.transfer_id frame) (_payloads s) (_source_node_id s))
    as [result ->].
  { intros Hnil. by rewrite Hnil in Hheld. }
  do 3 eexists. split; [reflexivity|]. by intros ? [=].
Qed.

Lemma init_consistent source_node_id max_payload_size_bytes callable self :
  __init__ source_node_id max_payload_size_bytes callable = Ok self →
  consistent self.
Proof.
  unfold __init__. destruct (_ || _); [done|]. intros [= <-]. by intros ? [=].
Qed.

Lemma process_frames_cons frame frames transfer_id_timeout self :
  process_frames (frame :: frames) transfer_id_timeout self =
  match process_frame frame transfer_id_timeout self with
  | Ok (result, self', log) =>
      match process_frames frames transfer_id_timeout self' with
      | Ok (results, self'', log') =>
          Ok (result :: results, self'', log ++ log')
      | Raise e => Raise e
      end
  | Raise e => Raise e
  end.
Proof.
  cbn [process_frames]. unfold mbind at 1, M_bind at 1.
  destruct (process_frame _ _ _) as [[[result self'] log]|]; [|done].
  unfold mbind, M_bind, mret, M_ret.
  destruct (process_frames _ _ _) as [[[results self''] log']|]; [|done].
  by rewrite app_nil_r.
Qed.

Lemma process_frames_return frames transfer_id_timeout : ∀ self,
  consistent self →
  ∃ results self' log,
    process_frames frames transfer_id_timeout self = Ok (results, self', log)
    ∧ consistent self'.
Proof.
  induction frames as [|frame frames IH]; intros self Hself.
  - by exists [], self, [].
  - rewrite process_frames_cons.
    destruct (process_frame_returns frame transfer_id_timeout self Hself)
      as (result & self' & log & -> & Hself').
    destruct (IH self' Hself') as (results & self'' & log' & -> & ?).
    by do 3 eexists.
Qed.


(** ** Delivery of a well-formed transfer in any order *)

Lemma length_held frames delivered :
  length (held frames delivered) = reach delivered.
Proof. unfold held. by rewrite length_fmap, length_seq. Qed.

Lemma reach_above delivered j : j ∈ delivered → (j < reach delivered)%nat.
Proof.
  induction delivered as [|i delivered IH]; [by intros ?%not_elem_of_nil|].
  cbn [reach foldr]. intros [->|Hin%IH]%elem_of_cons; fold (reach delivered) in *; lia.
Qed.

Lemma reach_below delivered n :
  (∀ j, j ∈ delivered → (j < n)%nat) → (reach delivered ≤ n)%nat.
Proof.
  induction delivered as [|i delivered IH]; intros Hall; cbn [reach foldr].
  - lia.
  - fold (reach delivered).
    assert (i < n)%nat by (apply Hall; left).
    assert (reach delivered ≤ n)%nat by (apply IH; intros; apply Hall; by right).
    lia.
Qed.

Lemma lookup_held frames delivered j :
  held frames delivered !! j =
  if decide (j < reach delivered)%nat
  then Some (if bool_decide (j ∈ delivered) then fragment_of frames j else [])
  else None.
Proof.
  unfold held. rewrite list_lookup_fmap. case_decide as Hj.
  - by rewrite lookup_seq_lt.
  - rewrite lookup_ge_None_2; [done|]. rewrite length_seq. lia.
Qed.

Lemma stored_held frames delivered i :
  stored i (fragment_of frames i) (held frames delivered) =
  held frames (i :: delivered).
Proof.
  apply list_eq. intros j. unfold stored.
  rewrite list_lookup_insert, length_app, length_replicate, length_held.
  rewrite (lookup_held frames (i :: delivered)). cbn [reach foldr].
  fold (reach delivered).
  case_decide as Hij.
  - destruct Hij as [<- _]. rewrite decide_True by lia.
    by rewrite bool_decide_eq_true_2 by left.
  - assert (i ≠ j) by lia.
    rewrite lookup_app, lookup_held, length_held.
    assert (bool_decide (j ∈ i :: delivered) = bool_decide (j ∈ delivered)) as ->.
    { apply bool_decide_ext. rewrite elem_of_cons.
      split; [by intros [->|?]|by right]. }
    destruct (decide (j < reach delivered)%nat) as [Hj|Hj].
    + by rewrite decide_True by lia.
    + assert (bool_decide (j ∈ delivered) = false) as ->.
      { apply bool_decide_eq_false. intros ?%reach_above. lia. }
      destruct (decide (j < S i `max` reach delivered)%nat).
      * rewrite lookup_replicate_2; [done|lia].
      * rewrite lookup_ge_None_2; [done|]. rewrite length_replicate. lia.
Qed.

Lemma fmap_payload_fragments frames :
  Frame.payload <$> frames = fragment_of frames <$> seq 0 (length frames).
Proof.
  apply list_eq. intros j. rewrite !list_lookup_fmap. unfold fragment_of.
  destruct (frames !! j) as [f|] eqn:Hj.
  - rewrite lookup_seq_lt by (by eapply lookup_lt_Some). cbn. by rewrite Hj.
  - rewrite lookup_ge_None_2; [done|]. rewrite length_seq.
    by apply lookup_ge_None.
Qed.

Lemma held_all frames delivered :
  (0 < length frames)%nat →
  (∀ j, j ∈ delivered ↔ (j < length frames)%nat) →
  held frames delivered = Frame.payload <$> frames.
Proof.
  intros Hpos Hall. rewrite fmap_payload_fragments. unfold held.
  assert (reach delivered = length frames) as ->.
  { apply Nat.le_antisymm; [apply reach_below; intros; by apply Hall|].
    assert (length frames - 1 < reach delivered)%nat; [|lia].
    apply reach_above, Hall. lia. }
  apply list_fmap_ext. intros i j [-> Hj]%lookup_seq.
  rewrite bool_decide_eq_true_2; [done|]. apply Hall. lia.
Qed.

Lemma sum_fragments_le (g h : nat → payload) (l : list nat) :
  (∀ j, (length (g j) ≤ length (h j))%nat) →
  (sum_list_with length (g <$> l) ≤ sum_list_with length (h <$> l))%nat.
Proof.
  intros Hle. induction l as [|j l IH]; cbn; [lia|]. specialize (Hle j). lia.
Qed.

Lemma sum_held_le frames delivered :
  (reach delivered ≤ length frames)%nat →
  (sum_list_with length (held frames delivered)
   ≤ sum_list_with length (Frame.payload <$> frames))%nat.
Proof.
  intros Hle. rewrite fmap_payload_fragments.
  replace (length frames) with (reach delivered + (length frames - reach delivered))%nat
    by lia.
  rewrite seq_app, fmap_app, sum_list_with_app. unfold held.
  etrans; [apply (sum_fragments_le _ (fragment_of frames))|lia].
  intros j. case_bool_decide; cbn; lia.
Qed.

Lemma held_hole frames delivered j :
  (j < reach delivered)%nat → j ∉ delivered →
  forallb truthy (held frames delivered) = false.
Proof.
  intros Hj Hnot. apply not_true_is_false. intros Hall.
  destruct (proj1 (forallb_truthy_lookup _) Hall j) as (x & Hx & Hne).
  { by rewrite length_held. }
  rewrite lookup_held, decide_True, bool_decide_eq_false_2 in Hx by done.
  by injection Hx as <-.
Qed.

(** When a frame of the current transfer is stored. *)
Lemma accept_frame_effect_stores frame transfer_id_timeout self :
  malformed frame = false →
  new_transfer frame transfer_id_timeout self = false →
  Frame.transfer_id frame = _transfer_id self →
  (Frame.end_of_transfer frame = true →
   ∀ m, _max_index self = Some m → m = Frame.index frame) →
  let last :=
    if Frame.end_of_transfer frame then Some (Frame.index frame)
    else _max_index self in
  let self' :=
    set_payloads
      (stored (Frame.index frame) (Frame.payload frame) (_payloads self))
      (set_max_index last self) in
  (∀ m, last = Some m →
        (Frame.index frame ≤ m ∧ length (_payloads self) ≤ S m)%nat) →
  _pure_payload_size_bytes self' ≤ _max_payload_size_bytes self →
  accept_frame_effect frame transfer_id_timeout self = (true, self', []).
Proof.
  destruct self as [src lim payloads max_index ts tid].
  cbn [_transfer_id _max_index _payloads _max_payload_size_bytes
       set_payloads set_max_index _source_node_id _timestamp].
  intros Hmal Hnew Htid Heot Hlast Hsize.
  unfold accept_frame_effect. rewrite Hmal, Hnew. cbn -[Z.ltb Z.max Z.of_nat Z.sub].
  rewrite Htid, Z.ltb_irrefl.
  destruct (Frame.end_of_transfer frame) eqn:Hflag; cbn [andb].
  - destruct max_index as [m|].
    + rewrite (Heot eq_refl m eq_refl), Nat.eqb_refl. cbn -[Z.ltb Z.max Z.of_nat Z.sub].
      destruct (Hlast _ eq_refl).
      replace (_ <? _ `max` _) with false by (symmetry; apply Z.ltb_ge; lia).
      by replace (lim <? _) with false by (symmetry; apply Z.ltb_ge; lia).
    + cbn -[Z.ltb Z.max Z.of_nat Z.sub]. destruct (Hlast _ eq_refl).
      replace (_ <? _ `max` _) with false by (symmetry; apply Z.ltb_ge; lia).
      by replace (lim <? _) with false by (symmetry; apply Z.ltb_ge; lia).
  - destruct max_index as [m|]; cbn -[Z.ltb Z.max Z.of_nat Z.sub].
    + destruct (Hlast _ eq_refl).
      replace (_ <? _ `max` _) with false by (symmetry; apply Z.ltb_ge; lia).
      by replace (lim <? _) with false by (symmetry; apply Z.ltb_ge; lia).
    + by replace (lim <? _) with false by (symmetry; apply Z.ltb_ge; lia).
Qed.

(** A frame that starts a new transfer is processed as on the restarted
    instance, after the report of the frames that went missing. *)
Lemma accept_frame_effect_fresh frame transfer_id_timeout self :
  malformed frame = false →
  new_transfer frame transfer_id_timeout self = true →
  0 ≤ transfer_id_timeout →
  accept_frame_effect frame transfer_id_timeout self =
  match accept_frame_effect frame transfer_id_timeout
          (restarted (Frame.timestamp frame) (Frame.transfer_id frame) self) with
  | (b, s, log) =>
      (b, s,
       (if truthy (_payloads self)
        then [OnError MULTIFRAME_MISSING_FRAMES self] else []) ++ log)
  end.
Proof.
  intros Hmal Hnew Htime.
  assert (new_transfer frame transfer_id_timeout
            (restarted (Frame.timestamp frame) (Frame.transfer_id frame) self)
          = false) as Hnot.
  { unfold new_transfer, timed_out. rewrite restarted_fields. cbn.
    rewrite Z.ltb_irrefl, Z.sub_diag. cbn. apply Z.ltb_ge. lia. }
  unfold accept_frame_effect. rewrite Hmal, Hnew, Hnot. cbv zeta.
  cbn [andb].
  repeat case_match; simplify_eq; rewrite ?app_nil_r; try reflexivity;
    try contra_bool.
Qed.

Lemma process_frame_fresh frame transfer_id_timeout self :
  malformed frame = false →
  new_transfer frame transfer_id_timeout self = true →
  0 ≤ transfer_id_timeout →
  process_frame frame transfer_id_timeout self =
  match process_frame frame transfer_id_timeout
          (restarted (Frame.timestamp frame) (Frame.transfer_id frame) self) with
  | Ok (result, s, log) =>
      Ok (result, s,
          (if truthy (_payloads self)
           then [OnError MULTIFRAME_MISSING_FRAMES self] else []) ++ log)
  | Raise e => Raise e
  end.
Proof.
  intros Hmal Hnew Htime. rewrite !process_frame_run.
  rewrite accept_frame_effect_fresh by done.
  destruct (accept_frame_effect _ _ (restarted _ _ _)) as [[[] s] log0];
    [|done].
  destruct (complete_transfer frame s) as [[[result s'] log1]|]; [|done].
  by rewrite app_assoc.
Qed.

Section Delivery.

Variables (frames : list Frame.t) (transfer_id : Z) (timestamp : Timestamp.t)
          (priority : Priority).
Variables (transfer_id_timeout source_node_id limit : Z)
          (first_timestamp : Timestamp.t) (trimmed : list payload).

Hypothesis Hwf : well_formed_transfer frames transfer_id timestamp priority.
Hypothesis Hcrc : check_residue (Frame.payload <$> frames) = true.
Hypothesis Hsize :
  (_CRC_SIZE_BYTES < sum_list_with length (Frame.payload <$> frames))%nat.
Hypothesis Hlimit :
  Z.of_nat (sum_list_with length (Frame.payload <$> frames))
  - Z.of_nat _CRC_SIZE_BYTES ≤ limit.
Hypothesis Hfirst : Z.of_nat (length (fragment_of frames 0)) ≤ limit.
Hypothesis Htime :
  Timestamp.monotonic_ns timestamp - Timestamp.monotonic_ns first_timestamp
  ≤ transfer_id_timeout.
Hypothesis Htrim : _drop_crc (Frame.payload <$> frames) = Ok trimmed.

Local Abbreviation state :=
  (collected frames source_node_id limit first_timestamp transfer_id).

Local Abbreviation emitted :=
  (TransferFrom.mk first_timestamp priority transfer_id trimmed
                   (Some source_node_id)).

Lemma frame_at i frame :
  frames !! i = Some frame →
  Frame.index frame = i
  ∧ Frame.transfer_id frame = transfer_id
  ∧ Frame.timestamp frame = timestamp
  ∧ Frame.priority frame = priority
  ∧ Frame.payload frame ≠ []
  ∧ fragment_of frames i = Frame.payload frame
  ∧ (i < length frames)%nat
  ∧ (Frame.end_of_transfer frame = true ↔ S i = length frames).
Proof.
  intros Hi. assert (frame ∈ frames) by (by eapply list_elem_of_lookup_2).
  destruct Hwf. repeat split; auto.
  - unfold fragment_of. by rewrite Hi.
  - by eapply lookup_lt_Some.
  - by apply wft_eot0.
  - by apply wft_eot0.
Qed.

Lemma accept_collected delivered i frame :
  frames !! i = Some frame →
  i ∉ delivered →
  (∀ j, j ∈ delivered → (j < length frames)%nat) →
  accept_frame_effect frame transfer_id_timeout (state delivered) =
  (true, state (i :: delivered), []).
Proof.
  intros Hi Hnew Hin.
  destruct (frame_at i frame Hi)
    as (Hidx & Htid & Hts & _ & Hpay & Hfrag & Hlt & Heot).
  assert (2 ≤ length frames)%nat as Hmulti by apply Hwf.
  pose proof (reach_below delivered _ Hin) as Hreach.
  assert ((if Frame.end_of_transfer frame then Some (Frame.index frame)
           else _max_index (state delivered)) =
          (if bool_decide ((length frames - 1)%nat ∈ i :: delivered)
           then Some (length frames - 1)%nat else None)) as Hlast.
  { cbn [collected _max_index]. destruct (Frame.end_of_transfer frame).
    - rewrite bool_decide_eq_true_2; [f_equal; lia|].
      replace i with (length frames - 1)%nat
        by (pose proof (proj1 Heot eq_refl); lia). left.
    - assert (bool_decide ((length frames - 1)%nat ∈ i :: delivered)
              = bool_decide ((length frames - 1)%nat ∈ delivered)) as ->; [|done].
      apply bool_decide_ext. rewrite elem_of_cons.
      assert (S i ≠ length frames) by (by intros ?%Heot).
      split; [|by right]. intros [?|?]; [lia|done]. }
  rewrite accept_frame_effect_stores.
  - cbn [collected _payloads set_payloads set_max_index _source_node_id
         _max_payload_size_bytes _max_index _timestamp _transfer_id] in *.
    rewrite Hlast, Hidx, <- Hfrag, stored_held. reflexivity.
  - unfold malformed. apply truthy_true in Hpay. rewrite Hpay.
    by rewrite andb_false_r.
  - unfold new_transfer, timed_out. cbn [collected _transfer_id _timestamp].
    rewrite Htid, Hts, Z.ltb_irrefl. cbn [orb]. apply Z.ltb_ge. lia.
  - by rewrite Htid.
  - intros Hflag m. cbn [collected _max_index].
    destruct (bool_decide_reflect ((length frames - 1)%nat ∈ delivered));
      [|done].
    exfalso. apply Hnew.
    by replace i with (length frames - 1)%nat
      by (pose proof (proj1 Heot Hflag); lia).
  - rewrite Hlast. intros m.
    destruct (bool_decide ((length frames - 1)%nat ∈ i :: delivered)); [|done].
    intros [= <-]. cbn [collected _payloads]. rewrite length_held, Hidx. lia.
  - rewrite Hlast. cbn [collected _payloads set_payloads set_max_index
         _source_node_id _max_payload_size_bytes _max_index _timestamp
         _transfer_id].
    rewrite Hidx, <- Hfrag, stored_held. unfold _pure_payload_size_bytes.
    cbn [_payloads]. rewrite length_held.
    assert (reach (i :: delivered) ≤ length frames)%nat as Hreach'.
    { apply reach_below. intros j [->|?]%elem_of_cons; auto. }
    pose proof (sum_held_le frames (i :: delivered) Hreach').
    destruct (Nat.ltb_spec 1 (reach (i :: delivered))); [lia|].
    assert (i < reach (i :: delivered))%nat by (apply reach_above; left).
    assert (reach (i :: delivered) = 1)%nat as Hone by lia.
    assert (i = 0)%nat as -> by lia.
    unfold held. rewrite Hone. cbn [seq fmap list_fmap].
    rewrite bool_decide_eq_true_2 by left. cbn [sum_list_with]. lia.
Qed.

Lemma complete_collected_waits delivered frame j :
  (∀ k, k ∈ delivered → (k < length frames)%nat) →
  (j < length frames)%nat → j ∉ delivered →
  complete_transfer frame (state delivered) = Ok (None, state delivered, []).
Proof.
  intros Hin Hj Hnot. rewrite complete_transfer_run.
  cbn [collected _max_index _payloads].
  destruct (bool_decide_reflect ((length frames - 1)%nat ∈ delivered))
    as [Hlast|]; [|done].
  assert (2 ≤ length frames)%nat as Hmulti by apply Hwf.
  pose proof (reach_below delivered _ Hin).
  apply reach_above in Hlast.
  rewrite (held_hole frames delivered j) by (done || lia).
  by replace (0 <? length frames - 1)%nat with true
    by (symmetry; apply Nat.ltb_lt; lia).
Qed.

Lemma complete_collected_emits delivered frame :
  (∀ j, j ∈ delivered ↔ (j < length frames)%nat) →
  Frame.transfer_id frame = transfer_id →
  Frame.priority frame = priority →
  complete_transfer frame (state delivered) =
  Ok (Some emitted,
      restarted (Frame.timestamp frame) (transfer_id + 1) (state delivered),
      []).
Proof.
  intros Hall Htid Hprio. rewrite complete_transfer_run.
  assert (2 ≤ length frames)%nat as Hmulti by apply Hwf.
  cbn [collected _max_index _payloads _timestamp _source_node_id].
  rewrite bool_decide_eq_true_2 by (apply Hall; lia).
  rewrite held_all by (done || lia).
  assert (forallb truthy (Frame.payload <$> frames) = true) as ->.
  { apply forallb_forall. intros x (f & -> & Hf)%list_elem_of_In%list_elem_of_fmap.
    apply truthy_true. by apply Hwf. }
  rewrite andb_false_r, length_fmap.
  replace (Z.of_nat (length frames - 1) =? Z.of_nat (length frames) - 1)
    with true by (symmetry; apply Z.eqb_eq; lia).
  destruct (finalize_multi first_timestamp (Frame.priority frame)
              (Frame.transfer_id frame) (Frame.payload <$> frames)
              source_node_id) as (trimmed' & Htrim' & _ & ->).
  { by rewrite length_fmap. }
  rewrite Htrim in Htrim'. injection Htrim' as <-.
  apply Nat.ltb_lt in Hsize. by rewrite Hsize, Hcrc, Htid, Hprio.
Qed.

(** The frames still to come, delivered one by one: nothing is returned
    until the last of them, which completes the transfer. *)
Lemma deliver_rest : ∀ todo delivered,
  todo ≠ [] →
  (∀ frame, frame ∈ todo → frames !! Frame.index frame = Some frame) →
  NoDup (delivered ++ (Frame.index <$> todo)) →
  (∀ j, (j < length frames)%nat ↔ j ∈ delivered ++ (Frame.index <$> todo)) →
  ∃ self',
    process_frames todo transfer_id_timeout (state delivered) =
    Ok (replicate (length todo - 1) None ++ [Some emitted], self', []).
Proof.
  induction todo as [|frame todo IH]; [done|].
  intros delivered _ Hin Hdup Hall.
  assert (frames !! Frame.index frame = Some frame) as Hi by (apply Hin; left).
  destruct (frame_at _ _ Hi) as (_ & Htid & _ & Hprio & _).
  cbn [fmap list_fmap] in Hdup, Hall.
  assert (∀ j, j ∈ delivered → (j < length frames)%nat) as Hbelow.
  { intros j Hj. apply Hall, elem_of_app. by left. }
  assert (Frame.index frame ∉ delivered) as Hnew.
  { intros Hj. apply NoDup_app in Hdup as (_ & Hdisj & _).
    apply (Hdisj _ Hj). left. }
  assert (NoDup ((Frame.index frame :: delivered) ++ (Frame.index <$> todo)))
    as Hdup'.
  { cbn [app]. by rewrite Permutation_middle. }
  assert (∀ j, (j < length frames)%nat
               ↔ j ∈ (Frame.index frame :: delivered) ++ (Frame.index <$> todo))
    as Hall'.
  { intros j. rewrite Hall. cbn [app]. by rewrite Permutation_middle. }
  rewrite process_frames_cons, process_frame_run.
  rewrite (accept_collected delivered _ frame Hi Hnew Hbelow).
  destruct todo as [|next todo].
  - rewrite complete_collected_emits; [by eexists|..]; try done.
    intros j. rewrite Hall'. cbn [fmap list_fmap]. by rewrite app_nil_r.
  - rewrite (complete_collected_waits _ _ (Frame.index next)).
    + destruct (IH (Frame.index frame :: delivered)) as [self' ->]; try done.
      { intros f Hf. apply Hin. by right. }
      exists self'. cbn [length Nat.sub]. by rewrite Nat.sub_0_r.
    + intros k [->|Hk]%elem_of_cons; [by eapply lookup_lt_Some|auto].
    + apply Hall'. apply elem_of_app. right. left.
    + apply NoDup_app in Hdup' as (_ & Hdisj & _).
      intros Hk. apply (Hdisj _ Hk). left.
Qed.

Lemma deliver_all delivery :
  delivery ≡ₚ frames →
  ∃ self',
    process_frames delivery transfer_id_timeout (state []) =
    Ok (replicate (length frames - 1) None ++ [Some emitted], self', []).
Proof.
  intros Hperm.
  assert (2 ≤ length frames)%nat as Hmulti by apply Hwf.
  assert (Frame.index <$> frames = seq 0 (length frames)) as Hseq.
  { apply list_eq. intros j. rewrite list_lookup_fmap.
    destruct (frames !! j) as [f|] eqn:Hj; cbn.
    - rewrite lookup_seq_lt by (by eapply lookup_lt_Some).
      f_equal. by apply Hwf.
    - symmetry. apply lookup_ge_None. rewrite length_seq.
      by apply lookup_ge_None. }
  assert (Frame.index <$> delivery ≡ₚ seq 0 (length frames)) as Hidx.
  { rewrite <- Hseq. by apply fmap_Permutation. }
  rewrite <- (Permutation_length Hperm).
  apply deliver_rest.
  - intros ->. apply Permutation_length in Hperm. cbn in Hperm. lia.
  - intros frame Hf. rewrite Hperm in Hf.
    apply list_elem_of_lookup in Hf as [i Hi].
    destruct (frame_at _ _ Hi) as (-> & _). done.
  - cbn [app]. rewrite Hidx. apply NoDup_seq.
  - intros j. cbn [app]. rewrite Hidx, elem_of_seq. lia.
Qed.

End Delivery.

Lemma collected_nil frames source_node_id limit first_timestamp transfer_id :
  collected frames source_node_id limit first_timestamp transfer_id [] =
  mkReassembler source_node_id limit [] None first_timestamp transfer_id.
Proof.
  unfold collected. by rewrite bool_decide_eq_false_2 by apply not_elem_of_nil.
Qed.


(** * Further properties of the reassembler *)

(** ** What the constructor and the calls keep *)

(** One call on an instance whose limit is not negative: the configuration
    stays, and so does the bound on the bytes held. *)
Lemma accept_frame_effect_quota frame transfer_id_timeout self b s log :
  0 ≤ _max_payload_size_bytes self →
  Z.of_nat (sum_list_with length (_payloads self))
  ≤ _max_payload_size_bytes self + Z.of_nat _CRC_SIZE_BYTES →
  accept_frame_effect frame transfer_id_timeout self = (b, s, log) →
  _source_node_id s = _source_node_id self
  ∧ _max_payload_size_bytes s = _max_payload_size_bytes self
  ∧ Z.of_nat (sum_list_with length (_payloads s))
    ≤ _max_payload_size_bytes s + Z.of_nat _CRC_SIZE_BYTES.
Proof.
  destruct self as [src lim payloads max_index ts tid].
  unfold accept_frame_effect, restarted, _pure_payload_size_bytes.
  cbn [_max_payload_size_bytes _payloads _source_node_id].
  intros Hlim Hsum H. repeat case_match; simplify_eq; cbn in *.
  all: repeat split; try done; bools; lia.
Qed.

Lemma process_frame_quota frame transfer_id_timeout self result self' log :
  0 ≤ _max_payload_size_bytes self →
  Z.of_nat (sum_list_with length (_payloads self))
  ≤ _max_payload_size_bytes self + Z.of_nat _CRC_SIZE_BYTES →
  process_frame frame transfer_id_timeout self = Ok (result, self', log) →
  _source_node_id self' = _source_node_id self
  ∧ _max_payload_size_bytes self' = _max_payload_size_bytes self
  ∧ Z.of_nat (sum_list_with length (_payloads self'))
    ≤ _max_payload_size_bytes self' + Z.of_nat _CRC_SIZE_BYTES.
Proof.
  intros Hlim Hsum. rewrite process_frame_run.
  destruct (accept_frame_effect _ _ _) as [[reached s] log0] eqn:Hacc.
  destruct (accept_frame_effect_quota _ _ _ _ _ _ Hlim Hsum Hacc)
    as (Hsrc & Hmax & Hquota).
  destruct reached; [|by intros [= _ <- _]].
  rewrite complete_transfer_run. intros Hrun.
  assert (self' = s
          ∨ self' = restarted (Frame.timestamp frame)
                              (Frame.transfer_id frame + 1) s) as [->| ->].
  { revert Hrun. repeat case_match; intros; simplify_eq; auto. }
  - done.
  - rewrite restarted_fields. cbn. repeat split; try done. lia.
Qed.

Lemma process_frames_keep frames transfer_id_timeout : ∀ self,
  consistent self →
  0 ≤ _max_payload_size_bytes self →
  Z.of_nat (sum_list_with length (_payloads self))
  ≤ _max_payload_size_bytes self + Z.of_nat _CRC_SIZE_BYTES →
  ∃ results self' log,
    process_frames frames transfer_id_timeout self = Ok (results, self', log)
    ∧ length results = length frames
    ∧ consistent self'
    ∧ _source_node_id self' = _source_node_id self
    ∧ _max_payload_size_bytes self' = _max_payload_size_bytes self
    ∧ Z.of_nat (sum_list_with length (_payloads self'))
      ≤ _max_payload_size_bytes self' + Z.of_nat _CRC_SIZE_BYTES.
Proof.
  induction frames as [|frame frames IH]; intros self Hcons Hlim Hsum.
  - by exists [], self, [].
  - rewrite process_frames_cons.
    destruct (process_frame_returns frame transfer_id_timeout self Hcons)
      as (result & s & log & Hstep & Hcons').
    rewrite Hstep.
    destruct (process_frame_quota _ _ _ _ _ _ Hlim Hsum Hstep)
      as (Hsrc & Hmax & Hquota).
    destruct (IH s) as (results & self' & log' & -> & Hlen & ? & ? & ? & ?);
      try done; [lia|].
    exists (result :: results), self', (log ++ log').
    cbn [length]. repeat split; try done; congruence.
Qed.

(** X1: the constructor raises [ValueError] exactly when one of its two
    numbers is negative or its callback is not callable; otherwise it makes
    the idle instance at transfer-ID 0.  On that instance every sequence of
    [process_frame] calls returns, one result per frame, whatever the
    frames and whatever number the timeout is: no assertion of the source
    fails.  (The timeout of the model is a number of nanoseconds; a timeout
    that is not a number is outside the model.)  The instance stays as the
    assertion of line 155 wants it (the fragment list ends at the last
    index once that is known) and keeps its node-ID and its limit. *)
Theorem constructed_instance_never_raises
    source_node_id max_payload_size_bytes callable :
  (__init__ source_node_id max_payload_size_bytes callable = Raise ValueError
   ↔ source_node_id < 0 ∨ max_payload_size_bytes < 0 ∨ callable = false)
  ∧ ∀ self frames transfer_id_timeout,
      __init__ source_node_id max_payload_size_bytes callable = Ok self →
      self = mkReassembler source_node_id max_payload_size_bytes [] None
                           (Timestamp.mk 0 0) 0
      ∧ ∃ results self' log,
          process_frames frames transfer_id_timeout self
          = Ok (results, self', log)
          ∧ length results = length frames
          ∧ (∀ m, _max_index self' = Some m → length (_payloads self') = S m)
          ∧ _source_node_id self' = source_node_id
          ∧ _max_payload_size_bytes self' = max_payload_size_bytes.
Proof.
  unfold __init__. split.
  - destruct (Z.ltb_spec source_node_id 0), (Z.ltb_spec max_payload_size_bytes 0),
      callable; cbn [orb negb]; split; try done; auto.
    intros [?|[?|?]]; (lia || done).
  - intros self frames transfer_id_timeout.
    destruct (Z.ltb_spec source_node_id 0), (Z.ltb_spec max_payload_size_bytes 0),
      callable; cbn [orb negb]; try done.
    intros [= <-]. split; [done|].
    destruct (process_frames_keep frames transfer_id_timeout
                (mkReassembler source_node_id max_payload_size_bytes [] None
                               (Timestamp.mk 0 0) 0))
      as (results & self' & log & Hrun & Hlen & Hcons & Hsrc & Hmax & _).
    + by intros ? [=].
    + done.
    + cbn. unfold _CRC_SIZE_BYTES. lia.
    + exists results, self', log. repeat split; done.
Qed.

(** X2: the bytes held never exceed the quota.  On an instance made by the
    constructor, after any sequence of calls the lengths of the fragments
    held sum to at most the limit plus [_CRC_SIZE_BYTES]. *)
Theorem held_bytes_within_quota
    source_node_id max_payload_size_bytes callable self frames
    transfer_id_timeout results self' log :
  __init__ source_node_id max_payload_size_bytes callable = Ok self →
  process_frames frames transfer_id_timeout self = Ok (results, self', log) →
  Z.of_nat (sum_list_with length (_payloads self'))
  ≤ max_payload_size_bytes + Z.of_nat _CRC_SIZE_BYTES.
Proof.
  unfold __init__.
  destruct (Z.ltb_spec source_node_id 0), (Z.ltb_spec max_payload_size_bytes 0),
    callable; cbn [orb negb]; try done.
  intros [= <-] Hrun.
  destruct (process_frames_keep frames transfer_id_timeout
              (mkReassembler source_node_id max_payload_size_bytes [] None
                             (Timestamp.mk 0 0) 0))
    as (results' & s & log' & Hrun' & _ & _ & _ & Hmax & Hquota).
  - by intros ? [=].
  - done.
  - cbn. unfold _CRC_SIZE_BYTES. lia.
  - rewrite Hrun in Hrun'. injection Hrun' as _ <- _.
    by rewrite Hmax in Hquota.
Qed.

(** ** What is emitted *)

(** X3: whatever the instance holds when the call is made, a transfer that
    [process_frame] returns has at most [_max_payload_size_bytes] bytes of
    payload, names the node the instance listens to, and carries the
    transfer-ID of the frame that completed it. *)
Theorem emitted_transfer_within_limit
    frame transfer_id_timeout self T self' log :
  process_frame frame transfer_id_timeout self = Ok (Some T, self', log) →
  Z.of_nat (length (concat (TransferFrom.fragmented_payload T)))
  ≤ _max_payload_size_bytes self
  ∧ TransferFrom.source_node_id T = Some (_source_node_id self)
  ∧ TransferFrom.transfer_id T = Frame.transfer_id frame.
Proof.
  intros (s & m & Hacc & Hmax & Hlen & Hfull & Hfin & ->)%process_frame_emits.
  destruct (accept_frame_effect_reached _ _ _ _ _ Hacc)
    as (_ & _ & Hsrc & Hlim & _ & _ & _ & Hsize).
  destruct (finalize_some_fields _ _ _ _ _ _ Hfin) as (_ & _ & Htid & Hnode).
  rewrite Hnode, Htid, Hsrc, <- Hlim. split; [|done].
  unfold _pure_payload_size_bytes in Hsize.
  destruct (Nat.ltb_spec 1 (length (_payloads s))) as [Hmulti|Hone].
  - destruct (finalize_multi (_timestamp s) (Frame.priority frame)
                (Frame.transfer_id frame) (_payloads s) (_source_node_id s))
      as (trimmed & _ & Hcat & Hres); [lia|].
    rewrite Hres in Hfin.
    destruct (Nat.ltb_spec _CRC_SIZE_BYTES
                (sum_list_with length (_payloads s))); [|done].
    destruct (check_residue (_payloads s)); [|done].
    injection Hfin as <-. cbn [TransferFrom.fragmented_payload].
    rewrite Hcat. unfold without_crc.
    rewrite length_take, length_concat_sum. lia.
  - destruct (_payloads s) as [|p [|q rest]] eqn:Hp; cbn [length] in *;
      try lia.
    rewrite finalize_single in Hfin. injection Hfin as <-.
    cbn [TransferFrom.fragmented_payload concat sum_list_with] in *.
    rewrite app_nil_r. lia.
Qed.

(** X4: a single-frame transfer with a transfer-ID above the current one
    and a payload within the limit, empty or not, is returned by the very
    call that delivers it, with the frame's timestamp, priority and
    transfer-ID and its payload as the one fragment; the instance is left
    idle at the next transfer-ID, and MULTIFRAME_MISSING_FRAMES is reported
    exactly when fragments of an older transfer were held.  The transfer is
    the one [construct_anonymous_transfer] makes of the frame, with the
    node-ID filled in; and [construct_anonymous_transfer] makes nothing of
    a frame that is not a single-frame transfer. *)
Theorem single_frame_transfer_accepted frame transfer_id_timeout self :
  (Frame.single_frame_transfer frame = true →
   _transfer_id self < Frame.transfer_id frame →
   Z.of_nat (length (Frame.payload frame)) ≤ _max_payload_size_bytes self →
   process_frame frame transfer_id_timeout self =
   Ok (Some (TransferFrom.mk (Frame.timestamp frame) (Frame.priority frame)
               (Frame.transfer_id frame) [Frame.payload frame]
               (Some (_source_node_id self))),
       restarted (Frame.timestamp frame) (Frame.transfer_id frame + 1) self,
       if truthy (_payloads self)
       then [OnError MULTIFRAME_MISSING_FRAMES self] else [])
   ∧ construct_anonymous_transfer frame =
     Some (TransferFrom.mk (Frame.timestamp frame) (Frame.priority frame)
             (Frame.transfer_id frame) [Frame.payload frame] None))
  ∧ (Frame.single_frame_transfer frame = false →
     construct_anonymous_transfer frame = None).
Proof.
  unfold construct_anonymous_transfer. split; [|by intros ->].
  intros Hsingle Hnew Hsize. rewrite Hsingle. split; [|done].
  unfold Frame.single_frame_transfer in Hsingle.
  apply andb_prop in Hsingle as [Hidx%Nat.eqb_eq Heot].
  rewrite process_frame_run.
  destruct self as [src lim payloads max_index ts tid].
  cbn [_transfer_id _max_payload_size_bytes _payloads _source_node_id] in *.
  unfold accept_frame_effect, malformed, new_transfer.
  rewrite Hidx, Heot. cbn [Nat.eqb andb negb _transfer_id].
  replace (tid <? Frame.transfer_id frame) with true
    by (symmetry; apply Z.ltb_lt; lia).
  cbn -[Z.ltb Z.of_nat Z.sub Z.max].
  rewrite Z.ltb_irrefl. cbn -[Z.ltb Z.of_nat Z.sub Z.max].
  replace (Z.of_nat 0 <? Z.of_nat 0 `max` (Z.of_nat 0 - 1)) with false
    by (symmetry; apply Z.ltb_ge; lia).
  unfold _pure_payload_size_bytes. cbn -[Z.ltb Z.of_nat Z.sub Z.max].
  replace (lim <? Z.of_nat (length (Frame.payload frame) + 0)) with false
    by (symmetry; apply Z.ltb_ge; lia).
  rewrite complete_transfer_run. cbn.
  destruct (truthy payloads); reflexivity.
Qed.

(** ** The trimmer undoes the appending of a CRC *)

(** X5: a trailer of [_CRC_SIZE_BYTES] bytes appended to the last fragment
    is exactly what [_drop_crc] removes: the other fragments come back as
    they are, and so does the last one, unless nothing but the trailer was
    in it, in which case it is popped. *)
Theorem drop_crc_after_append (fragments : list payload) (back crc : payload) :
  length crc = _CRC_SIZE_BYTES →
  _drop_crc (fragments ++ [back ++ crc]) =
  Ok (if truthy back then fragments ++ [back] else fragments).
Proof.
  intros Hcrc. unfold _drop_crc. rewrite length_app, Nat.add_1_r.
  unfold _CRC_SIZE_BYTES in *. rewrite drop_crc_loop_snoc, length_app, Hcrc.
  destruct back as [|x back]; cbn [length truthy].
  - cbn. by rewrite drop_crc_loop_zero.
  - replace (S (length back) + 4 <=? 4)%nat with false
      by (symmetry; apply Nat.leb_gt; lia).
    replace (S (length back) + 4 - 4)%nat with (length (x :: back))
      by (cbn [length]; lia).
    by rewrite take_app_length.
Qed.

(** ** Which errors one call can report *)

Lemma accept_frame_effect_errors frame transfer_id_timeout self b s log :
  accept_frame_effect frame transfer_id_timeout self = (b, s, log) →
  (b = true
   ∧ (errors_of log = []
      ∨ (errors_of log = [MULTIFRAME_MISSING_FRAMES]
         ∧ _payloads s = stored (Frame.index frame) (Frame.payload frame) []
         ∧ _max_index s = if Frame.end_of_transfer frame
                          then Some (Frame.index frame) else None)))
  ∨ (b = false
     ∧ (errors_of log = []
        ∨ errors_of log = [MULTIFRAME_EMPTY_FRAME]
        ∨ errors_of log = [MULTIFRAME_MISSING_FRAMES]
        ∨ errors_of log = [MULTIFRAME_MISSING_FRAMES; PAYLOAD_SIZE_EXCEEDS_LIMIT]
        ∨ errors_of log = [MULTIFRAME_EOT_INCONSISTENT]
        ∨ errors_of log = [MULTIFRAME_EOT_MISPLACED]
        ∨ errors_of log = [PAYLOAD_SIZE_EXCEEDS_LIMIT])).
Proof.
  destruct self as [src lim payloads max_index ts tid].
  unfold accept_frame_effect, restarted.
  intros H. repeat case_match; simplify_eq; cbn -[stored] in *.
  all: try (exfalso; simplify_eq; bools; (done || lia)).
  all: first [ by left; split; [done|left]
             | by left; split; [done|right]
             | right; split; [done|]; tauto ].
Qed.

Lemma complete_first_fragment frame s :
  malformed frame = false →
  _payloads s = stored (Frame.index frame) (Frame.payload frame) [] →
  _max_index s = (if Frame.end_of_transfer frame
                  then Some (Frame.index frame) else None) →
  ∃ result s', complete_transfer frame s = Ok (result, s', []).
Proof.
  intros Hmal Hheld Hmax. rewrite complete_transfer_run, Hmax, Hheld.
  destruct (Frame.end_of_transfer frame); [|by eauto].
  destruct (Frame.index frame) as [|k].
  - cbn. by eauto.
  - cbn. by eauto.
Qed.

(** X6: one call invokes the callback at most twice, and only in these
    ways: not at all; once, with any one of the six errors; or twice, with
    MULTIFRAME_MISSING_FRAMES for the transfer that was pre-empted and then
    PAYLOAD_SIZE_EXCEEDS_LIMIT for the frame that pre-empted it.  A call
    that returns a transfer reports nothing, or the pre-empted transfer
    only. *)
Theorem process_frame_reports frame transfer_id_timeout self result self' log :
  process_frame frame transfer_id_timeout self = Ok (result, self', log) →
  (errors_of log = []
   ∨ errors_of log = [MULTIFRAME_EMPTY_FRAME]
   ∨ errors_of log = [MULTIFRAME_MISSING_FRAMES]
   ∨ errors_of log = [MULTIFRAME_MISSING_FRAMES; PAYLOAD_SIZE_EXCEEDS_LIMIT]
   ∨ errors_of log = [MULTIFRAME_EOT_INCONSISTENT]
   ∨ errors_of log = [MULTIFRAME_EOT_MISPLACED]
   ∨ errors_of log = [PAYLOAD_SIZE_EXCEEDS_LIMIT]
   ∨ errors_of log = [MULTIFRAME_INTEGRITY_ERROR])
  ∧ (is_Some result →
     errors_of log = [] ∨ errors_of log = [MULTIFRAME_MISSING_FRAMES]).
Proof.
  rewrite process_frame_run.
  destruct (accept_frame_effect _ _ _) as [[reached s] log0] eqn:Hacc.
  destruct (accept_frame_effect_errors _ _ _ _ _ _ Hacc)
    as [[-> Hlog]|[-> Hlog]].
  - destruct (accept_frame_effect_reached _ _ _ _ _ Hacc) as (Hmal & _).
    destruct Hlog as [Hnone|(Hmiss & Hheld & Hmax)].
    + rewrite complete_transfer_run.
      intros Hrun.
      assert (errors_of log = [] ∧ True
              ∨ errors_of log = [MULTIFRAME_INTEGRITY_ERROR] ∧ result = None)
        as [[-> _]|[-> ->]].
      { revert Hrun. unfold errors_of in *.
        repeat case_match; intros; simplify_eq; rewrite map_app, Hnone;
          cbn; auto. }
      * split; auto.
      * split; [tauto|]. by intros [? ?].
    + destruct (complete_first_fragment frame s Hmal Hheld Hmax)
        as (r & s'' & ->).
      intros [= <- <- <-]. rewrite app_nil_r, Hmiss. split; auto.
  - intros [= <- <- <-]. split; [tauto|]. by intros [? ?].
Qed.

(** ** The integrity error *)

Lemma accept_frame_effect_no_integrity frame transfer_id_timeout self b s log :
  accept_frame_effect frame transfer_id_timeout self = (b, s, log) →
  MULTIFRAME_INTEGRITY_ERROR ∉ errors_of log.
Proof.
  intros Hacc Hin.
  destruct (accept_frame_effect_errors _ _ _ _ _ _ Hacc)
    as [[_ [H|[H _]]]|[_ H]].
  3: destruct H as [H|[H|[H|[H|[H|[H|H]]]]]].
  all: rewrite H in Hin.
  all: repeat match goal with
       | H : _ ∈ _ :: _ |- _ => apply elem_of_cons in H as [H|H]
       | H : _ ∈ [] |- _ => by apply not_elem_of_nil in H
       end; done.
Qed.

(** X7: MULTIFRAME_INTEGRITY_ERROR is reported exactly when the frame is
    stored, the last index is known and above zero, every fragment up to it
    is there, and the fragments hold no more than [_CRC_SIZE_BYTES] bytes or
    fail the residue check.  The call then returns [None], and the instance
    is left idle at the frame's transfer-ID plus one with the frame's
    timestamp: the rest of the transfer will be dropped. *)
Theorem integrity_error_discards_transfer
    frame transfer_id_timeout self result self' log :
  process_frame frame transfer_id_timeout self = Ok (result, self', log) →
  (MULTIFRAME_INTEGRITY_ERROR ∈ errors_of log
   ↔ ∃ s log0 m,
       accept_frame frame transfer_id_timeout self = Ok (true, s, log0)
       ∧ _max_index s = Some m ∧ (0 < m)%nat
       ∧ forallb truthy (_payloads s) = true
       ∧ ((sum_list_with length (_payloads s) ≤ _CRC_SIZE_BYTES)%nat
          ∨ check_residue (_payloads s) = false))
  ∧ (MULTIFRAME_INTEGRITY_ERROR ∈ errors_of log →
     result = None
     ∧ _payloads self' = [] ∧ _max_index self' = None
     ∧ _transfer_id self' = Frame.transfer_id frame + 1
     ∧ _timestamp self' = Frame.timestamp frame
     ∧ ∃ s log0,
         log = log0 ++ [OnError MULTIFRAME_INTEGRITY_ERROR s]
         ∧ _transfer_id s = Frame.transfer_id frame
         ∧ _payloads s !! Frame.index frame = Some (Frame.payload frame)).
Proof.
  rewrite process_frame_run, accept_frame_run.
  destruct (accept_frame_effect _ _ _) as [[reached s] log0] eqn:Hacc.
  pose proof (accept_frame_effect_no_integrity _ _ _ _ _ _ Hacc) as Hnot.
  destruct reached.
  2:{ intros [= <- <- <-]. split; [|done]. split; [done|].
      by intros (? & ? & ? & [=] & _). }
  destruct (accept_frame_effect_reached _ _ _ _ _ Hacc)
    as (_ & Htid & _ & _ & Hlookup & Hbound & _).
  rewrite complete_transfer_run.
  destruct (_max_index s) as [m|] eqn:Hmax.
  2:{ intros [= <- <- <-]. rewrite app_nil_r. split; [|done]. split; [done|].
      intros (? & ? & ? & [= <- <-] & ? & _). congruence. }
  destruct ((0 <? m)%nat && negb (forallb truthy (_payloads s))) eqn:Hwait.
  { intros [= <- <- <-]. rewrite app_nil_r. split; [|done]. split; [done|].
    intros (? & ? & m' & [= <- <-] & Hm & Hpos & Hall & _).
    rewrite Hmax in Hm. injection Hm as <-. rewrite Hall in Hwait.
    apply Nat.ltb_lt in Hpos. rewrite Hpos in Hwait. done. }
  destruct (Z.eqb_spec (Z.of_nat m) (Z.of_nat (length (_payloads s)) - 1))
    as [Hlen|]; [|done].
  destruct m as [|m].
  - destruct (_payloads s) as [|p [|q rest]] eqn:Hp; cbn [length] in Hlen;
      try lia.
    rewrite finalize_single. intros [= <- <- <-]. rewrite app_nil_r.
    split; [|done]. split; [done|].
    intros (? & ? & m' & [= <- <-] & Hm & Hpos & _).
    rewrite Hmax in Hm. injection Hm as <-. lia.
  - cbn [Nat.ltb Nat.leb andb] in Hwait. apply negb_false_iff in Hwait.
    destruct (finalize_multi (_timestamp s) (Frame.priority frame)
                (Frame.transfer_id frame) (_payloads s) (_source_node_id s))
      as (trimmed & _ & _ & ->); [lia|].
    destruct (Nat.ltb_spec _CRC_SIZE_BYTES
                (sum_list_with length (_payloads s))) as [Hsize|Hsize];
      destruct (check_residue (_payloads s)) eqn:Hcrc; cbn [andb].
    1:{ intros [= <- <- <-]. rewrite app_nil_r. split; [|done].
        split; [done|].
        intros (? & ? & ? & [= <- <-] & _ & _ & _ & [?|?]); [lia|congruence]. }
    all: intros [= <- <- <-]; unfold errors_of; rewrite map_app; cbn [map].
    all: split;
      [split;
        [intros _; exists s, log0, (S m); repeat split; auto; lia
        |intros _; apply elem_of_app; right; left]
      |intros _; rewrite restarted_fields; cbn; repeat split; try done;
       by exists s, log0].
Qed.

(** ** Duplicates *)

Lemma stored_lookup index fragment (payloads : list payload) :
  payloads !! index = Some fragment → stored index fragment payloads = payloads.
Proof.
  intros Hi. unfold stored.
  replace (S index - length payloads)%nat with 0%nat
    by (apply lookup_lt_Some in Hi; lia).
  cbn [replicate]. rewrite app_nil_r. by apply list_insert_id.
Qed.

Lemma accept_frame_effect_in_time frame transfer_id_timeout self s log :
  0 ≤ transfer_id_timeout →
  accept_frame_effect frame transfer_id_timeout self = (true, s, log) →
  timed_out frame transfer_id_timeout s = false.
Proof.
  destruct self as [src lim payloads max_index ts tid].
  unfold accept_frame_effect, new_transfer, timed_out, restarted.
  intros Hto H. repeat case_match; simplify_eq; cbn in *.
  all: bools; try done; apply Z.ltb_ge; lia.
Qed.

(** A frame that has just been stored is stored again with no effect. *)
Lemma accept_frame_effect_again frame transfer_id_timeout self s log :
  0 ≤ transfer_id_timeout →
  accept_frame_effect frame transfer_id_timeout self = (true, s, log) →
  accept_frame_effect frame transfer_id_timeout s = (true, s, []).
Proof.
  intros Hto Hacc.
  pose proof (accept_frame_effect_in_time _ _ _ _ _ Hto Hacc) as Htime.
  destruct (accept_frame_effect_reached _ _ _ _ _ Hacc)
    as (Hmal & Htid & _ & _ & Hlookup & Hbound & Heot & Hsize).
  assert (set_payloads
            (stored (Frame.index frame) (Frame.payload frame) (_payloads s))
            (set_max_index
               (if Frame.end_of_transfer frame
                then Some (Frame.index frame) else _max_index s) s) = s)
    as Hsame.
  { rewrite stored_lookup by done.
    destruct (Frame.end_of_transfer frame); [rewrite <- Heot by done|];
      by destruct s. }
  pose proof (accept_frame_effect_stores frame transfer_id_timeout s) as Hst.
  cbv zeta in Hst. rewrite Hsame in Hst. apply Hst; try done.
  - unfold new_transfer. by rewrite Htid, Z.ltb_irrefl, Htime.
  - intros Hflag m Hm. rewrite Heot in Hm by done. by injection Hm.
  - intros m Hm.
    assert (_max_index s = Some m) as Hmax.
    { destruct (Frame.end_of_transfer frame); [by rewrite Heot|done]. }
    specialize (Hbound m Hmax). apply lookup_lt_Some in Hlookup. lia.
Qed.

(** X8: duplicates are accepted.  Under a timeout that is not negative,
    when a call has stored its frame and the transfer is still awaited (the
    instance is left at the frame's transfer-ID), the call returned [None],
    and delivering the same frame again returns [None], changes nothing and
    reports nothing. *)
Theorem duplicate_frame_changes_nothing
    frame transfer_id_timeout self result self' log :
  0 ≤ transfer_id_timeout →
  malformed frame = false →
  process_frame frame transfer_id_timeout self = Ok (result, self', log) →
  _transfer_id self' = Frame.transfer_id frame →
  result = None
  ∧ _payloads self' !! Frame.index frame = Some (Frame.payload frame)
  ∧ process_frame frame transfer_id_timeout self' = Ok (None, self', []).
Proof.
  intros Hto Hmal Hrun Htid. revert Hrun. rewrite process_frame_run.
  destruct (accept_frame_effect _ _ _) as [[reached s] log0] eqn:Hacc.
  destruct reached.
  - pose proof (accept_frame_effect_again _ _ _ _ _ Hto Hacc) as Hagain.
    destruct (accept_frame_effect_reached _ _ _ _ _ Hacc)
      as (_ & _ & _ & _ & Hlookup & _).
    destruct (complete_transfer frame s) as [[[r s'] log1]|] eqn:Hdone;
      [|done].
    intros [= <- <- <-].
    assert (r = None ∧ s' = s ∧ log1 = []) as (-> & -> & ->).
    { revert Hdone. rewrite complete_transfer_run.
      repeat case_match; intros; simplify_eq; try done.
      all: rewrite restarted_fields in Htid; cbn in Htid; lia. }
    repeat split; try done.
    by rewrite process_frame_run, Hagain, Hdone.
  - intros [= <- <- <-]. exfalso. revert Hacc Hmal Htid.
    destruct self as [src lim payloads max_index ts tid].
    unfold accept_frame_effect, new_transfer, timed_out, restarted.
    intros H. repeat case_match; simplify_eq; cbn in *; intros; bools;
      try done; lia.
Qed.

(** ** After an abort *)

(** X9: a transfer that is aborted is discarded as a whole.  When a call
    reports MULTIFRAME_EOT_INCONSISTENT, MULTIFRAME_EOT_MISPLACED,
    PAYLOAD_SIZE_EXCEEDS_LIMIT or MULTIFRAME_INTEGRITY_ERROR, it returns
    [None] and leaves the instance idle at the frame's transfer-ID plus one;
    every later frame of that transfer or of an older one that arrives
    within the timeout of the aborting frame, and is not an empty frame of
    a multi-frame transfer, is then dropped: the call returns [None],
    changes nothing and reports nothing. *)
Theorem aborted_transfer_is_dropped
    frame transfer_id_timeout self result self' log error seen :
  process_frame frame transfer_id_timeout self = Ok (result, self', log) →
  OnError error seen ∈ log →
  aborts error = true →
  result = None
  ∧ self' = mkReassembler (_source_node_id self) (_max_payload_size_bytes self)
              [] None (Frame.timestamp frame) (Frame.transfer_id frame + 1)
  ∧ ∀ later later_timeout,
      malformed later = false →
      Frame.transfer_id later ≤ Frame.transfer_id frame →
      Timestamp.monotonic_ns (Frame.timestamp later)
      - Timestamp.monotonic_ns (Frame.timestamp frame) ≤ later_timeout →
      process_frame later later_timeout self' = Ok (None, self', []).
Proof.
  intros Hrun Hin Habort.
  assert (result = None
          ∧ self' = mkReassembler (_source_node_id self)
                      (_max_payload_size_bytes self) [] None
                      (Frame.timestamp frame) (Frame.transfer_id frame + 1))
    as [-> ->].
  { revert Hrun. rewrite process_frame_run.
    destruct (accept_frame_effect _ _ _) as [[reached s] log0] eqn:Hacc.
    assert (_source_node_id s = _source_node_id self
            ∧ _max_payload_size_bytes s = _max_payload_size_bytes self)
      as [Hsrc Hlim].
    { revert Hacc. destruct self as [src lim payloads max_index ts tid].
      unfold accept_frame_effect, restarted.
      intros H. repeat case_match; simplify_eq; by cbn. }
    destruct reached.
    - destruct (complete_transfer frame s) as [[[r s'] log1]|] eqn:Hdone;
        [|done].
      intros [= <- <- <-]. apply elem_of_app in Hin as [Hin|Hin].
      + destruct (accept_frame_effect_events _ _ _ _ _ _ _ _ Hacc Hin)
          as [(-> & _)|[(-> & _)|(_ & [=] & _)]]; done.
      + revert Hdone Hin. rewrite complete_transfer_run.
        repeat case_match; intros; simplify_eq;
          try (by apply not_elem_of_nil in Hin).
        by rewrite restarted_fields, Hsrc, Hlim.
    - intros [= <- <- <-].
      destruct (accept_frame_effect_events _ _ _ _ _ _ _ _ Hacc Hin)
        as [(-> & _)|[(-> & _)|(_ & _ & _ & _ & ->)]]; try done.
      split; [done|]. rewrite restarted_fields.
      revert Hacc Hin. destruct self as [src lim payloads max_index ts tid].
      unfold accept_frame_effect, restarted.
      intros H. repeat case_match; simplify_eq; cbn; intros;
        repeat match goal with
        | H : _ ∈ _ ++ _ |- _ => apply elem_of_app in H as [H|H]
        | H : _ ∈ _ :: _ |- _ => apply elem_of_cons in H as [H|H]
        | H : _ ∈ [] |- _ => by apply not_elem_of_nil in H
        end; by simplify_eq. }
  repeat split; try done.
  intros later later_timeout Hmal Hold Htime.
  rewrite process_frame_run, accept_frame_effect_stale; try done.
  - unfold timed_out. cbn. apply Z.ltb_ge. lia.
  - cbn. lia.
Qed.

(** ** Pre-emption *)

(** X10: a frame that starts a new transfer takes nothing over from the
    transfer it pre-empts.  Under a timeout that is not negative, two
    instances for the same node with the same limit, whatever they hold,
    return the same result for such a frame and are left in the same state;
    the reports differ in one thing, MULTIFRAME_MISSING_FRAMES first for an
    instance that held fragments. *)
Theorem new_transfer_forgets_old frame transfer_id_timeout self other :
  0 ≤ transfer_id_timeout →
  malformed frame = false →
  new_transfer frame transfer_id_timeout self = true →
  new_transfer frame transfer_id_timeout other = true →
  _source_node_id self = _source_node_id other →
  _max_payload_size_bytes self = _max_payload_size_bytes other →
  ∃ result self' log,
    process_frame frame transfer_id_timeout self =
    Ok (result, self',
        (if truthy (_payloads self)
         then [OnError MULTIFRAME_MISSING_FRAMES self] else []) ++ log)
    ∧ process_frame frame transfer_id_timeout other =
      Ok (result, self',
          (if truthy (_payloads other)
           then [OnError MULTIFRAME_MISSING_FRAMES other] else []) ++ log)
    ∧ MULTIFRAME_MISSING_FRAMES ∉ errors_of log.
Proof.
  intros Hto Hmal Hself Hother Hsrc Hlim.
  rewrite (process_frame_fresh frame transfer_id_timeout self) by done.
  rewrite (process_frame_fresh frame transfer_id_timeout other) by done.
  rewrite !restarted_fields, <- Hsrc, <- Hlim.
  set (idle := mkReassembler _ _ _ _ _ _).
  destruct (process_frame_returns frame transfer_id_timeout idle)
    as (result & self' & log & Hrun & _); [by intros ? [=]|].
  exists result, self', log. rewrite Hrun. repeat split; try done.
  intros Hin. revert Hrun. rewrite process_frame_run.
  destruct (accept_frame_effect _ _ _) as [[reached s] log0] eqn:Hacc.
  assert (MULTIFRAME_MISSING_FRAMES ∉ errors_of log0) as Hnot.
  { revert Hacc. unfold idle, accept_frame_effect, restarted.
    intros H. repeat case_match; simplify_eq; cbn; intros Hin';
      repeat match goal with
      | H : _ ∈ _ :: _ |- _ => apply elem_of_cons in H as [H|H]
      | H : _ ∈ [] |- _ => by apply not_elem_of_nil in H
      end; simplify_eq. }
  destruct reached; [|by intros [= <- <- <-]].
  rewrite complete_transfer_run.
  repeat case_match; intros; simplify_eq; rewrite ?app_nil_r in Hin;
    try done.
  unfold errors_of in *. rewrite map_app in Hin.
  apply elem_of_app in Hin as [Hin|Hin]; [done|].
  apply elem_of_cons in Hin as [Hin|Hin]; [done|].
  by apply not_elem_of_nil in Hin.
Qed.

(** ** No transfer is returned twice *)

Lemma process_frame_emits_id frame transfer_id_timeout self T self' log :
  process_frame frame transfer_id_timeout self = Ok (Some T, self', log) →
  TransferFrom.transfer_id T = Frame.transfer_id frame
  ∧ _transfer_id self' = Frame.transfer_id frame + 1
  ∧ (_transfer_id self ≤ Frame.transfer_id frame
     ∨ timed_out frame transfer_id_timeout self = true).
Proof.
  intros (s & m & Hacc & _ & _ & _ & Hfin & ->)%process_frame_emits.
  destruct (finalize_some_fields _ _ _ _ _ _ Hfin) as (_ & _ & Htid & _).
  destruct (accept_frame_effect_transfer_id _ _ _ _ _ _ Hacc) as (_ & _ & Hge).
  rewrite restarted_fields. cbn. auto.
Qed.

Lemma process_frames_never_back frames transfer_id_timeout :
  ∀ self results self' log,
  process_frames frames transfer_id_timeout self = Ok (results, self', log) →
  never_restarts_backwards frames transfer_id_timeout self →
  _transfer_id self ≤ _transfer_id self'.
Proof.
  induction frames as [|frame frames IH]; intros self results self' log.
  - intros [= _ <- _] _. lia.
  - rewrite process_frames_cons. cbn [never_restarts_backwards].
    destruct (process_frame _ _ _) as [[[result s] log0]|] eqn:Hstep; [|done].
    destruct (process_frames _ _ s) as [[[results' s'] log1]|] eqn:Hrest;
      [|done].
    intros [= _ <- _] [Hnot Hnever].
    specialize (IH _ _ _ _ Hrest Hnever).
    pose proof (process_frame_transfer_id _ _ _ _ _ _ Hstep) as [_ Hback].
    destruct (Z.lt_ge_cases (_transfer_id s) (_transfer_id self)); [|lia].
    exfalso. by apply Hnot, Hback.
Qed.

(** X11: over a sequence of calls in which no frame arrives past the
    timeout with a transfer-ID below the current one, the transfer-IDs of
    the transfers returned increase strictly, so that no transfer is
    returned twice whatever frames are repeated; each lies between the
    transfer-ID the instance started at and the one it ends at. *)
Theorem emitted_transfer_ids_increase
    frames transfer_id_timeout self results self' log :
  process_frames frames transfer_id_timeout self = Ok (results, self', log) →
  never_restarts_backwards frames transfer_id_timeout self →
  StronglySorted Z.lt (emitted_ids results)
  ∧ Forall (λ t, _transfer_id self ≤ t < _transfer_id self')
           (emitted_ids results).
Proof.
  revert self results self' log.
  induction frames as [|frame frames IH]; intros self results self' log.
  { intros [= <- <- <-] _. split; constructor. }
  rewrite process_frames_cons. cbn [never_restarts_backwards].
  destruct (process_frame _ _ _) as [[[result s] log0]|] eqn:Hstep; [|done].
  destruct (process_frames _ _ s) as [[[results' s'] log1]|] eqn:Hrest;
    [|done].
  intros [= <- <- <-] [Hnot Hnever].
  destruct (IH _ _ _ _ Hrest Hnever) as [Hsorted Hall].
  pose proof (process_frame_transfer_id _ _ _ _ _ _ Hstep) as [_ Hback].
  assert (_transfer_id self ≤ _transfer_id s) as Hmono.
  { destruct (Z.lt_ge_cases (_transfer_id s) (_transfer_id self)); [|lia].
    exfalso. by apply Hnot, Hback. }
  destruct result as [T|]; unfold emitted_ids in *; cbn [omap id fmap list_fmap].
  - destruct (process_frame_emits_id _ _ _ _ _ _ Hstep)
      as (Htid & Hnext & Hge).
    assert (_transfer_id self ≤ Frame.transfer_id frame) as Hle.
    { destruct Hge as [?|Htime]; [done|].
      destruct (Z.lt_ge_cases (Frame.transfer_id frame) (_transfer_id self));
        [|lia].
      exfalso. by apply Hnot. }
    pose proof (process_frames_never_back _ _ _ _ _ _ Hrest Hnever) as Hend.
    split.
    + constructor; [done|].
      eapply Forall_impl; [exact Hall|]. cbn. intros t ?. lia.
    + constructor; [lia|].
      eapply Forall_impl; [exact Hall|]. cbn. intros t ?. lia.
  - split; [done|].
    eapply Forall_impl; [exact Hall|]. cbn. intros t ?. lia.
Qed.

(** ** The two end-of-transfer errors *)

Lemma accept_frame_effect_eot frame transfer_id_timeout self b s log :
  accept_frame_effect frame transfer_id_timeout self = (b, s, log) →
  (MULTIFRAME_EOT_INCONSISTENT ∈ errors_of log
   ↔ malformed frame = false
     ∧ new_transfer frame transfer_id_timeout self = false
     ∧ Frame.transfer_id frame = _transfer_id self
     ∧ Frame.end_of_transfer frame = true
     ∧ ∃ m, _max_index self = Some m ∧ m ≠ Frame.index frame)
  ∧ (MULTIFRAME_EOT_MISPLACED ∈ errors_of log
     ↔ malformed frame = false
       ∧ new_transfer frame transfer_id_timeout self = false
       ∧ Frame.transfer_id frame = _transfer_id self
       ∧ ∃ m,
           (if Frame.end_of_transfer frame
            then m = Frame.index frame
                 ∧ (_max_index self = None ∨ _max_index self = Some m)
            else _max_index self = Some m)
           ∧ (m < Frame.index frame ∨ S m < length (_payloads self))%nat).
Proof.
  destruct self as [src lim payloads max_index ts tid].
  unfold accept_frame_effect, restarted.
  intros H. repeat case_match; simplify_eq; cbn -[new_transfer] in *.
  all: unfold new_transfer in *; cbn [_transfer_id] in *.
  all: split; (split; [intros Hin; elems; simplify_eq|]).
  all: try (intros; destruct_and?;
            repeat match goal with H : ∃ _, _ |- _ => destruct H end;
            destruct_and?; destruct_or?; simplify_eq; bools; nats;
            first [by left | done | lia]).
  all: try (exfalso; simplify_eq; bools; nats; (done || lia)).
  all: try (repeat split; try done; bools; nats; try lia;
            eexists; (split; [eauto|]); solve [done | lia]).
Qed.

Lemma process_frame_log frame transfer_id_timeout self result self' log :
  process_frame frame transfer_id_timeout self = Ok (result, self', log) →
  ∃ b s log0,
    accept_frame_effect frame transfer_id_timeout self = (b, s, log0)
    ∧ (errors_of log = errors_of log0
       ∨ errors_of log = errors_of log0 ++ [MULTIFRAME_INTEGRITY_ERROR]).
Proof.
  rewrite process_frame_run.
  destruct (accept_frame_effect _ _ _) as [[reached s] log0] eqn:Hacc.
  intros Hrun. exists reached, s, log0. split; [done|]. revert Hrun.
  destruct reached; [|intros [= <- <- <-]; by left].
  rewrite complete_transfer_run. unfold errors_of.
  repeat case_match; intros; simplify_eq; rewrite map_app, ?app_nil_r; auto.
Qed.

(** X12: the two errors about the end of a transfer.  Both need a frame
    that is not an empty frame, starts no new transfer and carries the
    current transfer-ID.  MULTIFRAME_EOT_INCONSISTENT is reported exactly
    when such a frame has the end-of-transfer flag and a last index other
    than its own is already known.  MULTIFRAME_EOT_MISPLACED is reported
    exactly when, with the last index as it is after the frame's flag is
    taken into account, the frame's index or that of a fragment held lies
    beyond it.  Neither is ever reported for the first frame of a new
    transfer. *)
Theorem eot_errors_characterised
    frame transfer_id_timeout self result self' log :
  process_frame frame transfer_id_timeout self = Ok (result, self', log) →
  (MULTIFRAME_EOT_INCONSISTENT ∈ errors_of log
   ↔ malformed frame = false
     ∧ new_transfer frame transfer_id_timeout self = false
     ∧ Frame.transfer_id frame = _transfer_id self
     ∧ Frame.end_of_transfer frame = true
     ∧ ∃ m, _max_index self = Some m ∧ m ≠ Frame.index frame)
  ∧ (MULTIFRAME_EOT_MISPLACED ∈ errors_of log
     ↔ malformed frame = false
       ∧ new_transfer frame transfer_id_timeout self = false
       ∧ Frame.transfer_id frame = _transfer_id self
       ∧ ∃ m,
           (if Frame.end_of_transfer frame
            then m = Frame.index frame
                 ∧ (_max_index self = None ∨ _max_index self = Some m)
            else _max_index self = Some m)
           ∧ (m < Frame.index frame ∨ S m < length (_payloads self))%nat).
Proof.
  intros (b & s & log0 & Hacc & Hlog)%process_frame_log.
  destruct (accept_frame_effect_eot _ _ _ _ _ _ Hacc) as [<- <-].
  destruct Hlog as [->| ->]; [done|].
  split; rewrite elem_of_app, list_elem_of_singleton; split; auto.
  all: by intros [?|?].
Qed.


(** ** A negative timeout *)

Lemma accept_frame_effect_negative_timeout frame transfer_id_timeout self s log :
  transfer_id_timeout < 0 →
  Timestamp.monotonic_ns (_timestamp self)
  ≤ Timestamp.monotonic_ns (Frame.timestamp frame) →
  accept_frame_effect frame transfer_id_timeout self = (true, s, log) →
  _payloads s = stored (Frame.index frame) (Frame.payload frame) []
  ∧ _max_index s = (if Frame.end_of_transfer frame
                    then Some (Frame.index frame) else None)
  ∧ _timestamp s = Frame.timestamp frame.
Proof.
  destruct self as [src lim payloads max_index ts tid].
  unfold accept_frame_effect, new_transfer, timed_out, restarted.
  cbn [_timestamp].
  intros Hto Hts H. repeat case_match; simplify_eq; cbn -[stored] in *.
  all: try done.
  all: exfalso; bools; lia.
Qed.

(** X13: under a negative timeout every frame whose timestamp is not
    earlier than the one the instance holds starts a new transfer, so that
    no transfer of two or more frames is ever completed: whatever such a
    call returns is the single-frame transfer made of the frame alone. *)
Theorem negative_timeout_single_frames_only
    frame transfer_id_timeout self T self' log :
  transfer_id_timeout < 0 →
  Timestamp.monotonic_ns (_timestamp self)
  ≤ Timestamp.monotonic_ns (Frame.timestamp frame) →
  process_frame frame transfer_id_timeout self = Ok (Some T, self', log) →
  Frame.single_frame_transfer frame = true
  ∧ T = TransferFrom.mk (Frame.timestamp frame) (Frame.priority frame)
          (Frame.transfer_id frame) [Frame.payload frame]
          (Some (_source_node_id self)).
Proof.
  intros Hto Hts (s & m & Hacc & Hmax & Hlen & Hfull & Hfin & _)%process_frame_emits.
  destruct (accept_frame_effect_negative_timeout _ _ _ _ _ Hto Hts Hacc)
    as (Hheld & Hlast & Hfirst).
  destruct (accept_frame_effect_reached _ _ _ _ _ Hacc)
    as (_ & _ & Hsrc & _).
  rewrite Hmax in Hlast. rewrite Hheld, Hfirst, Hsrc in *.
  unfold Frame.single_frame_transfer.
  destruct (Frame.end_of_transfer frame); [|done]. injection Hlast as ->.
  destruct (Frame.index frame) as [|k].
  - cbn in Hfin. by injection Hfin as <-.
  - destruct Hfull as [?|Hfull]; [done|]. cbn in Hfull. done.
Qed.

(** ** The fragments of a returned transfer *)

(** X14: a returned transfer never has an empty fragment list, and has an
    empty fragment only when it is made of the completing frame alone (a
    single-frame transfer may be empty): a transfer assembled from two or
    more frames has at least one fragment and none of them is empty. *)
Theorem emitted_fragments_not_empty frame transfer_id_timeout self T self' log :
  process_frame frame transfer_id_timeout self = Ok (Some T, self', log) →
  TransferFrom.fragmented_payload T = [Frame.payload frame]
  ∨ (TransferFrom.fragmented_payload T ≠ []
     ∧ Forall (λ fragment, fragment ≠ []) (TransferFrom.fragmented_payload T)).
Proof.
  intros (s & m & Hacc & Hmax & Hlen & Hfull & Hfin & _)%process_frame_emits.
  destruct (accept_frame_effect_reached _ _ _ _ _ Hacc)
    as (_ & _ & _ & _ & Hlookup & _).
  destruct Hfull as [->|Hall].
  - left. destruct (_payloads s) as [|p [|q rest]] eqn:Hp; cbn [length] in Hlen;
      try lia.
    rewrite finalize_single in Hfin. injection Hfin as <-. cbn.
    destruct (Frame.index frame) as [|k]; cbn in Hlookup; [|done].
    by injection Hlookup as ->.
  - destruct (Nat.ltb_spec 1 (length (_payloads s))) as [Hmulti|Hone].
    2:{ left. destruct (_payloads s) as [|p [|q rest]] eqn:Hp;
          cbn [length] in *; try lia.
        rewrite finalize_single in Hfin. injection Hfin as <-. cbn.
        destruct (Frame.index frame) as [|k]; cbn in Hlookup; [|done].
        by injection Hlookup as ->. }
    right.
    destruct (finalize_multi (_timestamp s) (Frame.priority frame)
                (Frame.transfer_id frame) (_payloads s) (_source_node_id s))
      as (trimmed & Htrim & Hcat & Hres); [lia|].
    rewrite Hres in Hfin.
    destruct (Nat.ltb_spec _CRC_SIZE_BYTES
                (sum_list_with length (_payloads s))) as [Hsize|]; [|done].
    destruct (check_residue (_payloads s)); [|done].
    injection Hfin as <-. cbn [TransferFrom.fragmented_payload].
    destruct (drop_crc_total (_payloads s)) as (trimmed' & Htrim' & _ & Hord & _).
    rewrite Htrim in Htrim'. injection Htrim' as <-.
    split.
    + intros ->. apply (f_equal length) in Hcat. revert Hcat.
      unfold without_crc. rewrite length_take, !length_concat_sum.
      cbn [sum_list_with]. unfold _CRC_SIZE_BYTES in *. lia.
    + pose proof (proj1 (forallb_forall _ _) Hall) as Hin.
      assert (Forall (λ fragment : payload, fragment ≠ []) (_payloads s))
        as Hheld.
      { apply Forall_forall. intros x Hx. apply truthy_true, Hin.
        by apply list_elem_of_In. }
      destruct Hord as (kept & rest & Hsplit & Hres').
      rewrite Hsplit in Hheld. apply Forall_app in Hheld as [Hkept _].
      destruct Hres' as [->|(x & y & rest' & _ & -> & Hx & _)]; [done|].
      apply Forall_app. split; [done|]. by constructor.
Qed.

(** ** The errors about empty frames, missing frames and the size limit *)

Lemma accept_frame_effect_other_errors frame transfer_id_timeout self b s log :
  accept_frame_effect frame transfer_id_timeout self = (b, s, log) →
  (MULTIFRAME_EMPTY_FRAME ∈ errors_of log ↔ malformed frame = true)
  ∧ (MULTIFRAME_MISSING_FRAMES ∈ errors_of log
     ↔ malformed frame = false
       ∧ new_transfer frame transfer_id_timeout self = true
       ∧ _payloads self ≠ [])
  ∧ (PAYLOAD_SIZE_EXCEEDS_LIMIT ∈ errors_of log
     ↔ malformed frame = false
       ∧ (new_transfer frame transfer_id_timeout self = true
          ∨ Frame.transfer_id frame = _transfer_id self)
       ∧ (MULTIFRAME_EOT_INCONSISTENT ∉ errors_of log)
       ∧ (MULTIFRAME_EOT_MISPLACED ∉ errors_of log)
       ∧ _max_payload_size_bytes self
         < _pure_payload_size_bytes
             (set_payloads
                (stored (Frame.index frame) (Frame.payload frame)
                   (if new_transfer frame transfer_id_timeout self
                    then [] else _payloads self))
                self)).
Proof.
  destruct self as [src lim payloads max_index ts tid].
  unfold accept_frame_effect, restarted, _pure_payload_size_bytes.
  intros H.
  repeat case_match; simplify_eq; cbn -[new_transfer stored] in *.
  all: unfold new_transfer in *; cbn [_transfer_id] in *.
  all: split; [|split]; (split; [intros Hin; elems; simplify_eq|]).
  all: try (intros; destruct_and?; destruct_or?; simplify_eq; bools; nats;
            first [ by left | by right; left | done | lia
                  | by destruct payloads
                  | exfalso;
                    match goal with
                    | H : _ ∉ _ |- _ =>
                        apply H; solve [left | right; left]
                    end ]).
  all: try (exfalso; simplify_eq; bools; nats; solve [done | lia | congruence]).
  all: try (repeat split; try done; auto;
            try (intros Hin; elems; simplify_eq);
            bools; nats; solve [done | lia | by apply truthy_true]).
Qed.

(** X15: the other three errors.  MULTIFRAME_EMPTY_FRAME is reported
    exactly for a frame without payload that is not a single-frame
    transfer.  MULTIFRAME_MISSING_FRAMES is reported exactly when a frame
    that is not such an empty frame starts a new transfer while fragments
    are held.  PAYLOAD_SIZE_EXCEEDS_LIMIT is reported exactly when a frame
    that starts a new transfer or carries the current transfer-ID passes
    the two end-of-transfer checks and, once it is stored, the size the
    instance computes for what it holds is above the limit. *)
Theorem empty_missing_size_errors_characterised
    frame transfer_id_timeout self result self' log :
  process_frame frame transfer_id_timeout self = Ok (result, self', log) →
  (MULTIFRAME_EMPTY_FRAME ∈ errors_of log ↔ malformed frame = true)
  ∧ (MULTIFRAME_MISSING_FRAMES ∈ errors_of log
     ↔ malformed frame = false
       ∧ new_transfer frame transfer_id_timeout self = true
       ∧ _payloads self ≠ [])
  ∧ (PAYLOAD_SIZE_EXCEEDS_LIMIT ∈ errors_of log
     ↔ malformed frame = false
       ∧ (new_transfer frame transfer_id_timeout self = true
          ∨ Frame.transfer_id frame = _transfer_id self)
       ∧ (MULTIFRAME_EOT_INCONSISTENT ∉ errors_of log)
       ∧ (MULTIFRAME_EOT_MISPLACED ∉ errors_of log)
       ∧ _max_payload_size_bytes self
         < _pure_payload_size_bytes
             (set_payloads
                (stored (Frame.index frame) (Frame.payload frame)
                   (if new_transfer frame transfer_id_timeout self
                    then [] else _payloads self))
                self)).
Proof.
  intros (b & s & log0 & Hacc & Hlog)%process_frame_log.
  assert (∀ error, error ≠ MULTIFRAME_INTEGRITY_ERROR →
                   error ∈ errors_of log ↔ error ∈ errors_of log0) as Hsame.
  { intros error Herror. destruct Hlog as [->| ->]; [done|].
    rewrite elem_of_app, list_elem_of_singleton. tauto. }
  rewrite !Hsame by done.
  by apply accept_frame_effect_other_errors with b s.
Qed.


(** ** The timestamp of a transfer, and the frames that wait *)

Lemma accept_frame_effect_timestamp frame transfer_id_timeout self s log :
  accept_frame_effect frame transfer_id_timeout self = (true, s, log) →
  _timestamp s = (if new_transfer frame transfer_id_timeout self
                  then Frame.timestamp frame else _timestamp self).
Proof.
  destruct self as [src lim payloads max_index ts tid].
  unfold accept_frame_effect, restarted.
  intros H. by repeat case_match; simplify_eq; cbn in *.
Qed.

(** X16: a returned transfer carries the timestamp the instance holds once
    the frame is matched, and the priority of the frame that completed it.
    That timestamp is the completing frame's own when line 110 takes that
    frame for the start of a new transfer, and otherwise the one the
    instance held when the call was made, which is the timestamp given to
    the latest [_restart].  This is not always the timestamp of the first
    frame of the transfer: after a call that returned a transfer, a frame
    that arrives within the timeout and whose transfer-ID is at most one
    above is not taken for the start of a new transfer, so that a transfer
    it completes carries the timestamp of the frame that completed the
    transfer before. *)
Theorem emitted_transfer_timestamp :
  (∀ frame transfer_id_timeout self T self' log,
     process_frame frame transfer_id_timeout self = Ok (Some T, self', log) →
     TransferFrom.timestamp T =
     (if new_transfer frame transfer_id_timeout self
      then Frame.timestamp frame else _timestamp self)
     ∧ TransferFrom.priority T = Frame.priority frame
     ∧ _timestamp self' = Frame.timestamp frame)
  ∧ (∀ previous frame transfer_id_timeout later_timeout self T0 s log0
       T self' log,
       process_frame previous transfer_id_timeout self = Ok (Some T0, s, log0) →
       process_frame frame later_timeout s = Ok (Some T, self', log) →
       Frame.transfer_id frame ≤ Frame.transfer_id previous + 1 →
       Timestamp.monotonic_ns (Frame.timestamp frame)
       - Timestamp.monotonic_ns (Frame.timestamp previous) ≤ later_timeout →
       TransferFrom.timestamp T = Frame.timestamp previous
       ∧ Frame.transfer_id frame = Frame.transfer_id previous + 1).
Proof.
  assert (∀ frame transfer_id_timeout self T self' log,
            process_frame frame transfer_id_timeout self = Ok (Some T, self', log) →
            TransferFrom.timestamp T =
            (if new_transfer frame transfer_id_timeout self
             then Frame.timestamp frame else _timestamp self)
            ∧ TransferFrom.priority T = Frame.priority frame
            ∧ _timestamp self' = Frame.timestamp frame
            ∧ _transfer_id self' = Frame.transfer_id frame + 1
            ∧ (new_transfer frame transfer_id_timeout self = false →
               Frame.transfer_id frame = _transfer_id self)) as Hone.
  { intros frame transfer_id_timeout self T self' log
      (s & m & Hacc & _ & _ & _ & Hfin & ->)%process_frame_emits.
    destruct (finalize_some_fields _ _ _ _ _ _ Hfin) as (-> & -> & _).
    rewrite (accept_frame_effect_timestamp _ _ _ _ _ Hacc).
    apply accept_frame_effect_true in Hacc as (_ & Htid & _).
    repeat split; try done. intros Hnew. unfold with_frame in Htid.
    rewrite Hnew in Htid. by cbn in Htid. }
  split.
  - intros frame transfer_id_timeout self T self' log Hrun.
    by destruct (Hone _ _ _ _ _ _ Hrun) as (? & ? & ? & _).
  - intros previous frame transfer_id_timeout later_timeout self T0 s log0
      T self' log Hprevious Hrun Htid Htime.
    destruct (Hone _ _ _ _ _ _ Hprevious) as (_ & _ & Hts & Hnext & _).
    destruct (Hone _ _ _ _ _ _ Hrun) as (-> & _ & _ & _ & Hsame).
    assert (new_transfer frame later_timeout s = false) as Hnew.
    { unfold new_transfer, timed_out. rewrite Hts, Hnext.
      apply orb_false_intro; apply Z.ltb_ge; lia. }
    rewrite Hnew. split; [done|]. rewrite Hsame by done. done.
Qed.

Lemma accept_frame_effect_waits frame transfer_id_timeout self b s log :
  malformed frame = false →
  new_transfer frame transfer_id_timeout self = false →
  accept_frame_effect frame transfer_id_timeout self = (b, s, log) →
  _transfer_id s = Frame.transfer_id frame →
  b = true ∧ log = []
  ∧ s = set_payloads
          (stored (Frame.index frame) (Frame.payload frame) (_payloads self))
          (set_max_index
             (if Frame.end_of_transfer frame
              then Some (Frame.index frame) else _max_index self) self).
Proof.
  destruct self as [src lim payloads max_index ts tid].
  unfold accept_frame_effect, restarted.
  intros Hmal Hnew H. rewrite Hmal, Hnew in H. revert H.
  repeat case_match; intros; simplify_eq; cbn in *; try done.
  all: bools; nats; simplify_eq; try done; lia.
Qed.

(** X17: a frame that joins the transfer under way and does not complete
    it.  When a frame that is not an empty frame and starts no new transfer
    leaves the instance at its own transfer-ID, the call returned [None] and
    reported nothing, and did this and no more: the frame's payload is put
    at the frame's index, the fragment list being filled up to there with
    empty fragments, the other fragments are left as they were, the last
    index becomes the frame's when the frame has the end-of-transfer flag,
    and the first timestamp stays. *)
Theorem awaited_transfer_keeps_fragments
    frame transfer_id_timeout self result self' log :
  malformed frame = false →
  new_transfer frame transfer_id_timeout self = false →
  process_frame frame transfer_id_timeout self = Ok (result, self', log) →
  _transfer_id self' = Frame.transfer_id frame →
  result = None ∧ log = []
  ∧ _payloads self' !! Frame.index frame = Some (Frame.payload frame)
  ∧ (∀ i, i ≠ Frame.index frame →
          _payloads self' !! i =
          if (i <? length (_payloads self) `max` S (Frame.index frame))%nat
          then Some (default [] (_payloads self !! i)) else None)
  ∧ _max_index self' = (if Frame.end_of_transfer frame
                        then Some (Frame.index frame) else _max_index self)
  ∧ _timestamp self' = _timestamp self
  ∧ _transfer_id self' = _transfer_id self.
Proof.
  intros Hmal Hnew Hrun Htid. revert Hrun. rewrite process_frame_run.
  destruct (accept_frame_effect _ _ _) as [[reached s] log0] eqn:Hacc.
  pose proof (accept_frame_effect_waits _ _ _ _ _ _ Hmal Hnew Hacc) as Hwait.
  destruct reached.
  2:{ intros [= <- <- <-]. by destruct Hwait as ([=] & _). }
  destruct (complete_transfer frame s) as [[[r s'] log1]|] eqn:Hdone; [|done].
  intros [= <- <- <-].
  assert (r = None ∧ s' = s ∧ log1 = []) as (-> & -> & ->).
  { revert Hdone. rewrite complete_transfer_run.
    repeat case_match; intros; simplify_eq; try done.
    all: rewrite restarted_fields in Htid; cbn in Htid; lia. }
  destruct (Hwait Htid) as (_ & -> & ->).
  destruct self as [src lim payloads max_index ts tid].
  cbn -[stored Nat.ltb Nat.max]. repeat split; try done.
  - apply lookup_stored.
  - intros i Hi. unfold stored.
    rewrite list_lookup_insert_ne by done.
    destruct (Nat.ltb_spec i (length payloads `max` S (Frame.index frame))).
    + destruct (Nat.lt_ge_cases i (length payloads)).
      * rewrite lookup_app_l by done.
        destruct (lookup_lt_is_Some_2 payloads i) as [x ->]; [done|].
        reflexivity.
      * rewrite lookup_app_r by done.
        rewrite (lookup_ge_None_2 payloads) by done.
        rewrite lookup_replicate_2 by lia. reflexivity.
    + apply lookup_ge_None_2. rewrite length_app, length_replicate. lia.
Qed.

End Reassembler.

(** ** The unit tests of the source hold of the model *)

Lemma unittest_transfer_reassembler_passes :
  match __init__ 1234 100 true with
  | Ok ta =>
      match process_frames CRC32C.check_residue unittest_frames one_second ta with
      | Ok (results, _, log) =>
          results = unittest_expected ∧ errors_of log = unittest_errors
      | Raise _ => False
      end
  | Raise _ => False
  end
  ∧ __init__ (-1) 100 true = Raise ValueError
  ∧ __init__ 0 (-1) true = Raise ValueError.
Proof. vm_compute. repeat split; reflexivity. Qed.

Lemma unittest_validate_and_finalize_transfer_passes :
  let call := _validate_and_finalize_transfer CRC32C.check_residue
                (mk_ts 7) FAST 888888888 in
  let transfer := TransferFrom.mk (mk_ts 7) FAST 888888888 in
  call [mv ""] 1234 = Ok (Some (transfer [mv ""] (Some 1234)))
  ∧ call [mv "hello world"] 1234
    = Ok (Some (transfer [mv "hello world"] (Some 1234)))
  ∧ call [mv "hello world"; mv "0123456789";
          CRC32C.value_as_bytes [mv "hello world"; mv "0123456789"]] 1234
    = Ok (Some (transfer [mv "hello world"; mv "0123456789"] (Some 1234)))
  ∧ call [mv "hello world"; mv "0123456789"] 1234 = Ok None.
Proof. vm_compute. repeat split; reflexivity. Qed.

Lemma unittest_transfer_reassembler_anonymous_passes :
  let frame index end_of_transfer :=
    Frame.mk (mk_ts 7) LOW 123456 index end_of_transfer (mv "abcdef") in
  construct_anonymous_transfer (frame 0%nat true)
  = Some (TransferFrom.mk (mk_ts 7) LOW 123456 [mv "abcdef"] None)
  ∧ construct_anonymous_transfer (frame 1%nat true) = None
  ∧ construct_anonymous_transfer (frame 0%nat false) = None.
Proof. repeat split; reflexivity. Qed.

(** ** The properties at concrete frames *)

Lemma process_frame_returns_transfer_witness :
  process_frame CRC32C.check_residue first_frame one_second awaiting_first
  = Ok (Some emitted_10, after_emission, []).
Proof.
  apply (proj2 (process_frame_returns_transfer CRC32C.check_residue
                  first_frame one_second awaiting_first emitted_10
                  after_emission [])).
  cbv zeta. split; [reflexivity|]. split; [reflexivity|].
  split; [intros _ Heot; discriminate Heot|].
  split; [vm_compute; discriminate|]. split; [reflexivity|]. split.
  - exists 2%nat. split; [reflexivity|]. split; [reflexivity|]. right.
    intros [|[|[|i]]] Hi.
    + eexists. split; [reflexivity|]. vm_compute. discriminate.
    + eexists. split; [reflexivity|]. vm_compute. discriminate.
    + eexists. split; [reflexivity|]. vm_compute. discriminate.
    + lia.
  - repeat split; vm_compute; reflexivity.
Defined.

Lemma process_frame_empty_frame_witness :
  Frame.payload empty_stale_frame = []
  ∧ Frame.single_frame_transfer empty_stale_frame = false
  ∧ process_frame CRC32C.check_residue empty_stale_frame one_second
      awaiting_first
    = Ok (None, awaiting_first,
          [OnError MULTIFRAME_EMPTY_FRAME awaiting_first]).
Proof.
  split; [reflexivity|]. split; [reflexivity|].
  apply process_frame_empty_frame; reflexivity.
Defined.

Lemma process_frame_stale_frame_witness :
  Frame.transfer_id old_frame < _transfer_id after_emission
  ∧ Timestamp.monotonic_ns (Frame.timestamp old_frame)
    - Timestamp.monotonic_ns (_timestamp after_emission) ≤ one_second
  ∧ process_frame CRC32C.check_residue old_frame one_second after_emission
    = Ok (None, after_emission, []).
Proof.
  assert (Frame.transfer_id old_frame < _transfer_id after_emission) as Hlt
    by reflexivity.
  assert (Timestamp.monotonic_ns (Frame.timestamp old_frame)
          - Timestamp.monotonic_ns (_timestamp after_emission) ≤ one_second)
    as Htime by (vm_compute; discriminate).
  split; [exact Hlt|]. split; [exact Htime|].
  exact (process_frame_stale_frame CRC32C.check_residue old_frame one_second
           after_emission Hlt Htime).
Defined.

(** A frame with a lower transfer-ID makes the callback run when it is
    empty, and is accepted, and here completes a transfer, when it arrives
    past the timeout. *)
Lemma stale_frame_counterexample :
  Frame.transfer_id empty_stale_frame < _transfer_id awaiting_first
  ∧ process_frame CRC32C.check_residue empty_stale_frame one_second
      awaiting_first
    = Ok (None, awaiting_first,
          [OnError MULTIFRAME_EMPTY_FRAME awaiting_first])
  ∧ Frame.transfer_id late_old_frame < _transfer_id awaiting_first
  ∧ process_frame CRC32C.check_residue late_old_frame one_second
      awaiting_first
    = Ok (Some (mk_transfer (mk_ts 2000) 0 [hedgehog]),
          mkReassembler 1234 100 [] None (mk_ts 2000) 1,
          [OnError MULTIFRAME_MISSING_FRAMES awaiting_first]).
Proof. repeat split; vm_compute; reflexivity. Qed.



Lemma emitted_transfer_drops_four_bytes_witness :
  process_frame CRC32C.check_residue first_frame one_second awaiting_first
  = Ok (Some (mk_transfer (mk_ts 1000) 10
                [take 50 hedgehog; drop 50 hedgehog]),
        after_emission, [])
  ∧ _CRC_SIZE_BYTES = 4%nat
  ∧ (∀ crc_size,
       _unittest_drop_crc crc_size = true → crc_size = _CRC_SIZE_BYTES)
  ∧ ∃ s,
      accept_frame first_frame one_second awaiting_first = Ok (true, s, [])
      ∧ ((2 ≤ length (_payloads s))%nat →
         ∃ trailer,
           length trailer = 4%nat
           ∧ concat (_payloads s) =
             concat [take 50 hedgehog; drop 50 hedgehog] ++ trailer).
Proof.
  assert (process_frame CRC32C.check_residue first_frame one_second
            awaiting_first
          = Ok (Some (mk_transfer (mk_ts 1000) 10
                        [take 50 hedgehog; drop 50 hedgehog]),
                after_emission, [])) as Hstep
    by (vm_compute; reflexivity).
  split; [exact Hstep|].
  exact (emitted_transfer_drops_four_bytes CRC32C.check_residue
           _ _ _ _ _ _ Hstep).
Defined.

(** With a trailer of two bytes the assertions of the trimmer's unit test
    fail; the trimmer takes four bytes off, and so does the emission of
    transfer 10: 77 bytes are held and 73 are emitted. *)
Lemma crc_size_counterexample :
  _unittest_drop_crc 2 = false
  ∧ _drop_crc [mv "0123456789"] = Ok [mv "012345"]
  ∧ accept_frame first_frame one_second awaiting_first
    = Ok (true, all_received, [])
  ∧ process_frame CRC32C.check_residue first_frame one_second awaiting_first
    = Ok (Some (mk_transfer (mk_ts 1000) 10
                  [take 50 hedgehog; drop 50 hedgehog]),
          after_emission, [])
  ∧ length (concat (_payloads all_received)) = 77%nat
  ∧ length (concat [take 50 hedgehog; drop 50 hedgehog]) = 73%nat.
Proof. repeat split; vm_compute; reflexivity. Qed.

Lemma validate_and_finalize_transfer_cases_witness :
  let frame_payloads :=
    [mv "hello world"; mv "0123456789";
     CRC32C.value_as_bytes [mv "hello world"; mv "0123456789"]] in
  let result :=
    _validate_and_finalize_transfer CRC32C.check_residue (mk_ts 7) FAST
      888888888 frame_payloads 1234 in
  frame_payloads ≠ []
  ∧ (∀ fragment, frame_payloads = [fragment] →
       result = Ok (Some (TransferFrom.mk (mk_ts 7) FAST 888888888 [fragment]
                            (Some 1234))))
  ∧ ((2 ≤ length frame_payloads)%nat →
     ∃ trimmed,
       _drop_crc frame_payloads = Ok trimmed
       ∧ concat trimmed = without_crc (concat frame_payloads)
       ∧ (((_CRC_SIZE_BYTES < sum_list_with length frame_payloads)%nat
           ∧ CRC32C.check_residue frame_payloads = true) →
          result = Ok (Some (TransferFrom.mk (mk_ts 7) FAST 888888888 trimmed
                               (Some 1234))))
       ∧ (¬ ((_CRC_SIZE_BYTES < sum_list_with length frame_payloads)%nat
             ∧ CRC32C.check_residue frame_payloads = true) →
          result = Ok None)).
Proof.
  intros frame_payloads result.
  assert (frame_payloads ≠ []) as Hne by discriminate.
  split; [exact Hne|].
  exact (validate_and_finalize_transfer_cases CRC32C.check_residue (mk_ts 7)
           FAST 888888888 frame_payloads 1234 Hne).
Defined.

Lemma error_callback_precedes_restart_witness :
  process_frame CRC32C.check_residue second_last_frame one_second
    awaiting_first
  = Ok (None, after_emission,
        [OnError MULTIFRAME_EOT_INCONSISTENT awaiting_first])
  ∧ OnError MULTIFRAME_EOT_INCONSISTENT awaiting_first
    ∈ [OnError MULTIFRAME_EOT_INCONSISTENT awaiting_first]
  ∧ (awaiting_first = awaiting_first
     ∧ @None TransferFrom.t = None
     ∧ after_emission
       = restarted (Frame.timestamp second_last_frame)
                   (Frame.transfer_id second_last_frame + 1) awaiting_first)
  ∧ process_frame CRC32C.check_residue oversized_frame one_second
      awaiting_first
    = Ok (None, mkReassembler 1234 100 [] None (mk_ts 2000) 21,
          [OnError MULTIFRAME_MISSING_FRAMES awaiting_first;
           OnError PAYLOAD_SIZE_EXCEEDS_LIMIT oversized_stored])
  ∧ OnError PAYLOAD_SIZE_EXCEEDS_LIMIT oversized_stored
    ∈ [OnError MULTIFRAME_MISSING_FRAMES awaiting_first;
       OnError PAYLOAD_SIZE_EXCEEDS_LIMIT oversized_stored]
  ∧ (oversized_stored = with_frame oversized_frame one_second awaiting_first
     ∧ @None TransferFrom.t = None
     ∧ mkReassembler 1234 100 [] None (mk_ts 2000) 21
       = restarted (Frame.timestamp oversized_frame)
                   (Frame.transfer_id oversized_frame + 1) oversized_stored)
  ∧ _restart (mk_ts 1000) 11 (Some MULTIFRAME_EOT_INCONSISTENT) awaiting_first
    = Ok (tt, restarted (mk_ts 1000) 11 awaiting_first,
          [OnError MULTIFRAME_EOT_INCONSISTENT awaiting_first]).
Proof.
  assert (process_frame CRC32C.check_residue second_last_frame one_second
            awaiting_first
          = Ok (None, after_emission,
                [OnError MULTIFRAME_EOT_INCONSISTENT awaiting_first]))
    as Hstep by (vm_compute; reflexivity).
  assert (OnError MULTIFRAME_EOT_INCONSISTENT awaiting_first
          ∈ [OnError MULTIFRAME_EOT_INCONSISTENT awaiting_first]) as Hin
    by apply list_elem_of_here.
  assert (process_frame CRC32C.check_residue oversized_frame one_second
            awaiting_first
          = Ok (None, mkReassembler 1234 100 [] None (mk_ts 2000) 21,
                [OnError MULTIFRAME_MISSING_FRAMES awaiting_first;
                 OnError PAYLOAD_SIZE_EXCEEDS_LIMIT oversized_stored]))
    as Hstep' by (vm_compute; reflexivity).
  assert (OnError PAYLOAD_SIZE_EXCEEDS_LIMIT oversized_stored
          ∈ [OnError MULTIFRAME_MISSING_FRAMES awaiting_first;
             OnError PAYLOAD_SIZE_EXCEEDS_LIMIT oversized_stored]) as Hin'
    by (apply list_elem_of_further, list_elem_of_here).
  split; [exact Hstep|]. split; [exact Hin|]. split.
  { exact (proj2 (error_callback_precedes_restart CRC32C.check_residue)
             _ _ _ _ _ _ _ _ Hstep Hin). }
  split; [exact Hstep'|]. split; [exact Hin'|]. split.
  { exact (proj2 (error_callback_precedes_restart CRC32C.check_residue)
             _ _ _ _ _ _ _ _ Hstep' Hin'). }
  exact (proj1 (error_callback_precedes_restart CRC32C.check_residue)
           _ _ _ _).
Defined.

(** The callback does not always see the instance as the call found it:
    the frame of a new transfer whose payload is above the limit resets the
    instance (line 112), sets the last index (line 129) and is stored (line
    141) before PAYLOAD_SIZE_EXCEEDS_LIMIT is reported, so that each of the
    four fields the callback sees differs from what the call found. *)
Lemma callback_sees_updated_state_counterexample :
  process_frame CRC32C.check_residue oversized_frame one_second awaiting_first
  = Ok (None, mkReassembler 1234 100 [] None (mk_ts 2000) 21,
        [OnError MULTIFRAME_MISSING_FRAMES awaiting_first;
         OnError PAYLOAD_SIZE_EXCEEDS_LIMIT oversized_stored])
  ∧ _payloads oversized_stored ≠ _payloads awaiting_first
  ∧ _max_index oversized_stored ≠ _max_index awaiting_first
  ∧ _timestamp oversized_stored ≠ _timestamp awaiting_first
  ∧ _transfer_id oversized_stored ≠ _transfer_id awaiting_first.
Proof.
  split; [vm_compute; reflexivity|].
  repeat split; vm_compute; discriminate.
Qed.

Lemma process_frame_after_emission_witness :
  process_frame CRC32C.check_residue first_frame one_second awaiting_first
  = Ok (Some (mk_transfer (mk_ts 1000) 10
                [take 50 hedgehog; drop 50 hedgehog]),
        after_emission, [])
  ∧ accept_frame first_frame one_second awaiting_first
    = Ok (true, all_received, [])
  ∧ frame_of_transfer middle_frame all_received
  ∧ Timestamp.monotonic_ns (Frame.timestamp middle_frame)
    - Timestamp.monotonic_ns (Frame.timestamp first_frame) ≤ one_second
  ∧ (Frame.transfer_id middle_frame = 10
     ∧ _transfer_id after_emission = 10 + 1
     ∧ process_frame CRC32C.check_residue middle_frame one_second
         after_emission
       = Ok (None, after_emission, [])).
Proof.
  assert (process_frame CRC32C.check_residue first_frame one_second
            awaiting_first
          = Ok (Some (mk_transfer (mk_ts 1000) 10
                        [take 50 hedgehog; drop 50 hedgehog]),
                after_emission, [])) as Hstep
    by (vm_compute; reflexivity).
  assert (accept_frame first_frame one_second awaiting_first
          = Ok (true, all_received, [])) as Hacc
    by (vm_compute; reflexivity).
  assert (frame_of_transfer middle_frame all_received) as Hof.
  { split; [reflexivity|]. split; [reflexivity|].
    split; intros H; discriminate H. }
  assert (Timestamp.monotonic_ns (Frame.timestamp middle_frame)
          - Timestamp.monotonic_ns (Frame.timestamp first_frame) ≤ one_second)
    as Htime by (vm_compute; discriminate).
  split; [exact Hstep|]. split; [exact Hacc|]. split; [exact Hof|].
  split; [exact Htime|].
  exact (process_frame_after_emission CRC32C.check_residue
           _ _ _ _ _ _ _ _ _ Hstep Hacc Hof Htime).
Defined.

Lemma transfer_10_well_formed :
  well_formed_transfer [first_frame; middle_frame; last_frame] 10
                       (mk_ts 1000) SLOW.
Proof.
  split.
  - cbn. lia.
  - intros [|[|[|i]]] frame [= <-]; reflexivity.
  - intros frame Hin.
    repeat (apply elem_of_cons in Hin as [->|Hin]); try reflexivity.
    by apply not_elem_of_nil in Hin.
  - intros frame Hin.
    repeat (apply elem_of_cons in Hin as [->|Hin]); try reflexivity.
    by apply not_elem_of_nil in Hin.
  - intros frame Hin.
    repeat (apply elem_of_cons in Hin as [->|Hin]); try reflexivity.
    by apply not_elem_of_nil in Hin.
  - intros frame Hin.
    repeat (apply elem_of_cons in Hin as [->|Hin]); try discriminate.
    by apply not_elem_of_nil in Hin.
  - intros [|[|[|i]]] frame [= <-]; cbn; split; intros H;
      (discriminate H || reflexivity || lia).
Defined.



(** ** The further properties at the data of the unit tests *)

Lemma constructed_instance_never_raises_witness :
  __init__ 1234 100 true = Ok constructed
  ∧ ∃ results self' log,
      process_frames CRC32C.check_residue unittest_frames one_second
        constructed
      = Ok (results, self', log)
      ∧ length results = length unittest_frames
      ∧ (∀ m, _max_index self' = Some m → length (_payloads self') = S m)
      ∧ _source_node_id self' = 1234
      ∧ _max_payload_size_bytes self' = 100.
Proof.
  assert (__init__ 1234 100 true = Ok constructed) as Hinit by reflexivity.
  exact (conj Hinit
           (proj2 (proj2 (constructed_instance_never_raises
                            CRC32C.check_residue 1234 100 true)
                     constructed unittest_frames one_second Hinit))).
Defined.

Lemma held_bytes_within_quota_witness :
  __init__ 1234 100 true = Ok constructed
  ∧ process_frames CRC32C.check_residue [last_frame; middle_frame] one_second
      constructed
    = Ok ([None; None], awaiting_first, [])
  ∧ Z.of_nat (sum_list_with length (_payloads awaiting_first))
    ≤ 100 + Z.of_nat _CRC_SIZE_BYTES.
Proof.
  assert (__init__ 1234 100 true = Ok constructed) as Hinit by reflexivity.
  assert (process_frames CRC32C.check_residue [last_frame; middle_frame]
            one_second constructed
          = Ok ([None; None], awaiting_first, [])) as Hrun
    by (vm_compute; reflexivity).
  exact (conj Hinit
           (conj Hrun
              (held_bytes_within_quota CRC32C.check_residue 1234 100 true
                 constructed [last_frame; middle_frame] one_second
                 [None; None] awaiting_first [] Hinit Hrun))).
Defined.

Lemma emitted_transfer_within_limit_witness :
  process_frame CRC32C.check_residue first_frame one_second awaiting_first
  = Ok (Some emitted_10, after_emission, [])
  ∧ Z.of_nat (length (concat (TransferFrom.fragmented_payload emitted_10)))
    ≤ _max_payload_size_bytes awaiting_first
  ∧ TransferFrom.source_node_id emitted_10
    = Some (_source_node_id awaiting_first)
  ∧ TransferFrom.transfer_id emitted_10 = Frame.transfer_id first_frame.
Proof.
  assert (process_frame CRC32C.check_residue first_frame one_second
            awaiting_first
          = Ok (Some emitted_10, after_emission, [])) as Hstep
    by (vm_compute; reflexivity).
  exact (conj Hstep
           (emitted_transfer_within_limit CRC32C.check_residue first_frame
              one_second awaiting_first emitted_10 after_emission [] Hstep)).
Defined.

Lemma single_frame_transfer_accepted_witness :
  Frame.single_frame_transfer single_frame = true
  ∧ _transfer_id awaiting_first < Frame.transfer_id single_frame
  ∧ Z.of_nat (length (Frame.payload single_frame))
    ≤ _max_payload_size_bytes awaiting_first
  ∧ process_frame CRC32C.check_residue single_frame one_second awaiting_first
    = Ok (Some (mk_transfer (mk_ts 1000) 20 [hedgehog]),
          mkReassembler 1234 100 [] None (mk_ts 1000) 21,
          [OnError MULTIFRAME_MISSING_FRAMES awaiting_first])
  ∧ construct_anonymous_transfer single_frame
    = Some (TransferFrom.mk (mk_ts 1000) SLOW 20 [hedgehog] None).
Proof.
  assert (Frame.single_frame_transfer single_frame = true) as Hsingle
    by reflexivity.
  assert (_transfer_id awaiting_first < Frame.transfer_id single_frame)
    as Hnew by reflexivity.
  assert (Z.of_nat (length (Frame.payload single_frame))
          ≤ _max_payload_size_bytes awaiting_first) as Hsize
    by (vm_compute; discriminate).
  exact (conj Hsingle
           (conj Hnew
              (conj Hsize
                 (proj1 (single_frame_transfer_accepted CRC32C.check_residue
                           single_frame one_second awaiting_first)
                    Hsingle Hnew Hsize)))).
Defined.

Lemma drop_crc_after_append_witness :
  length (CRC32C.value_as_bytes [hedgehog]) = _CRC_SIZE_BYTES
  ∧ _drop_crc ([take 50 hedgehog]
               ++ [drop 50 hedgehog ++ CRC32C.value_as_bytes [hedgehog]])
    = Ok [take 50 hedgehog; drop 50 hedgehog].
Proof.
  assert (length (CRC32C.value_as_bytes [hedgehog]) = _CRC_SIZE_BYTES)
    as Hcrc by (vm_compute; reflexivity).
  exact (conj Hcrc
           (drop_crc_after_append [take 50 hedgehog] (drop 50 hedgehog)
              (CRC32C.value_as_bytes [hedgehog]) Hcrc)).
Defined.

Lemma process_frame_reports_witness :
  process_frame CRC32C.check_residue second_last_frame one_second
    awaiting_first
  = Ok (None, after_emission,
        [OnError MULTIFRAME_EOT_INCONSISTENT awaiting_first])
  ∧ (is_Some (@None TransferFrom.t) →
     errors_of [OnError MULTIFRAME_EOT_INCONSISTENT awaiting_first] = []
     ∨ errors_of [OnError MULTIFRAME_EOT_INCONSISTENT awaiting_first]
       = [MULTIFRAME_MISSING_FRAMES]).
Proof.
  assert (process_frame CRC32C.check_residue second_last_frame one_second
            awaiting_first
          = Ok (None, after_emission,
                [OnError MULTIFRAME_EOT_INCONSISTENT awaiting_first]))
    as Hstep by (vm_compute; reflexivity).
  exact (conj Hstep
           (proj2 (process_frame_reports CRC32C.check_residue
                     second_last_frame one_second awaiting_first None
                     after_emission
                     [OnError MULTIFRAME_EOT_INCONSISTENT awaiting_first]
                     Hstep))).
Defined.

Lemma integrity_error_discards_transfer_witness :
  process_frame CRC32C.check_residue corrupt_first_frame one_second
    awaiting_first
  = Ok (None, after_emission,
        [OnError MULTIFRAME_INTEGRITY_ERROR corrupt_received])
  ∧ MULTIFRAME_INTEGRITY_ERROR
    ∈ errors_of [OnError MULTIFRAME_INTEGRITY_ERROR corrupt_received]
  ∧ (∃ s log0 m,
       accept_frame corrupt_first_frame one_second awaiting_first
       = Ok (true, s, log0)
       ∧ _max_index s = Some m ∧ (0 < m)%nat
       ∧ forallb truthy (_payloads s) = true
       ∧ ((sum_list_with length (_payloads s) ≤ _CRC_SIZE_BYTES)%nat
          ∨ CRC32C.check_residue (_payloads s) = false))
  ∧ @None TransferFrom.t = None
  ∧ _payloads after_emission = [] ∧ _max_index after_emission = None
  ∧ _transfer_id after_emission = Frame.transfer_id corrupt_first_frame + 1
  ∧ _timestamp after_emission = Frame.timestamp corrupt_first_frame
  ∧ ∃ s log0,
      [OnError MULTIFRAME_INTEGRITY_ERROR corrupt_received]
      = log0 ++ [OnError MULTIFRAME_INTEGRITY_ERROR s]
      ∧ _transfer_id s = Frame.transfer_id corrupt_first_frame
      ∧ _payloads s !! Frame.index corrupt_first_frame
        = Some (Frame.payload corrupt_first_frame).
Proof.
  assert (process_frame CRC32C.check_residue corrupt_first_frame one_second
            awaiting_first
          = Ok (None, after_emission,
                [OnError MULTIFRAME_INTEGRITY_ERROR corrupt_received]))
    as Hstep by (vm_compute; reflexivity).
  assert (MULTIFRAME_INTEGRITY_ERROR
          ∈ errors_of [OnError MULTIFRAME_INTEGRITY_ERROR corrupt_received])
    as Hin by apply list_elem_of_here.
  exact (conj Hstep
           (conj Hin
              (conj
                 (proj1 (proj1 (integrity_error_discards_transfer
                                  CRC32C.check_residue corrupt_first_frame
                                  one_second awaiting_first None
                                  after_emission _ Hstep)) Hin)
                 (proj2 (integrity_error_discards_transfer
                           CRC32C.check_residue corrupt_first_frame
                           one_second awaiting_first None after_emission _
                           Hstep) Hin)))).
Defined.

Lemma duplicate_frame_changes_nothing_witness :
  0 ≤ one_second
  ∧ malformed middle_frame = false
  ∧ process_frame CRC32C.check_residue middle_frame one_second awaiting_two
    = Ok (None, awaiting_first, [])
  ∧ _transfer_id awaiting_first = Frame.transfer_id middle_frame
  ∧ @None TransferFrom.t = None
  ∧ _payloads awaiting_first !! Frame.index middle_frame
    = Some (Frame.payload middle_frame)
  ∧ process_frame CRC32C.check_residue middle_frame one_second awaiting_first
    = Ok (None, awaiting_first, []).
Proof.
  assert (0 ≤ one_second) as Hto by (vm_compute; discriminate).
  assert (malformed middle_frame = false) as Hmal by reflexivity.
  assert (process_frame CRC32C.check_residue middle_frame one_second
            awaiting_two
          = Ok (None, awaiting_first, [])) as Hstep
    by (vm_compute; reflexivity).
  assert (_transfer_id awaiting_first = Frame.transfer_id middle_frame)
    as Htid by reflexivity.
  exact (conj Hto
           (conj Hmal
              (conj Hstep
                 (conj Htid
                    (duplicate_frame_changes_nothing CRC32C.check_residue
                       middle_frame one_second awaiting_two None
                       awaiting_first [] Hto Hmal Hstep Htid))))).
Defined.

Lemma aborted_transfer_is_dropped_witness :
  process_frame CRC32C.check_residue second_last_frame one_second
    awaiting_first
  = Ok (None, after_emission,
        [OnError MULTIFRAME_EOT_INCONSISTENT awaiting_first])
  ∧ OnError MULTIFRAME_EOT_INCONSISTENT awaiting_first
    ∈ [OnError MULTIFRAME_EOT_INCONSISTENT awaiting_first]
  ∧ aborts MULTIFRAME_EOT_INCONSISTENT = true
  ∧ @None TransferFrom.t = None
  ∧ after_emission
    = mkReassembler (_source_node_id awaiting_first)
        (_max_payload_size_bytes awaiting_first) [] None
        (Frame.timestamp second_last_frame)
        (Frame.transfer_id second_last_frame + 1)
  ∧ ∀ later later_timeout,
      malformed later = false →
      Frame.transfer_id later ≤ Frame.transfer_id second_last_frame →
      Timestamp.monotonic_ns (Frame.timestamp later)
      - Timestamp.monotonic_ns (Frame.timestamp second_last_frame)
      ≤ later_timeout →
      process_frame CRC32C.check_residue later later_timeout after_emission
      = Ok (None, after_emission, []).
Proof.
  assert (process_frame CRC32C.check_residue second_last_frame one_second
            awaiting_first
          = Ok (None, after_emission,
                [OnError MULTIFRAME_EOT_INCONSISTENT awaiting_first]))
    as Hstep by (vm_compute; reflexivity).
  assert (OnError MULTIFRAME_EOT_INCONSISTENT awaiting_first
          ∈ [OnError MULTIFRAME_EOT_INCONSISTENT awaiting_first]) as Hin
    by apply list_elem_of_here.
  assert (aborts MULTIFRAME_EOT_INCONSISTENT = true) as Habort
    by reflexivity.
  exact (conj Hstep
           (conj Hin
              (conj Habort
                 (aborted_transfer_is_dropped CRC32C.check_residue
                    second_last_frame one_second awaiting_first None
                    after_emission _ MULTIFRAME_EOT_INCONSISTENT
                    awaiting_first Hstep Hin Habort)))).
Defined.

Lemma new_transfer_forgets_old_witness :
  0 ≤ one_second
  ∧ malformed early_half = false
  ∧ new_transfer early_half one_second awaiting_first = true
  ∧ new_transfer early_half one_second idle_at_3 = true
  ∧ _source_node_id awaiting_first = _source_node_id idle_at_3
  ∧ _max_payload_size_bytes awaiting_first = _max_payload_size_bytes idle_at_3
  ∧ ∃ result self' log,
      process_frame CRC32C.check_residue early_half one_second awaiting_first
      = Ok (result, self',
            (if truthy (_payloads awaiting_first)
             then [OnError MULTIFRAME_MISSING_FRAMES awaiting_first]
             else []) ++ log)
      ∧ process_frame CRC32C.check_residue early_half one_second idle_at_3
        = Ok (result, self',
              (if truthy (_payloads idle_at_3)
               then [OnError MULTIFRAME_MISSING_FRAMES idle_at_3]
               else []) ++ log)
      ∧ MULTIFRAME_MISSING_FRAMES ∉ errors_of log.
Proof.
  assert (0 ≤ one_second) as Hto by (vm_compute; discriminate).
  assert (malformed early_half = false) as Hmal by reflexivity.
  assert (new_transfer early_half one_second awaiting_first = true) as Hself
    by (vm_compute; reflexivity).
  assert (new_transfer early_half one_second idle_at_3 = true) as Hother
    by (vm_compute; reflexivity).
  assert (_source_node_id awaiting_first = _source_node_id idle_at_3)
    as Hsrc by reflexivity.
  assert (_max_payload_size_bytes awaiting_first
          = _max_payload_size_bytes idle_at_3) as Hlim by reflexivity.
  exact (conj Hto
           (conj Hmal
              (conj Hself
                 (conj Hother
                    (conj Hsrc
                       (conj Hlim
                          (new_transfer_forgets_old CRC32C.check_residue
                             early_half one_second awaiting_first idle_at_3
                             Hto Hmal Hself Hother Hsrc Hlim))))))).
Defined.

Lemma emitted_transfer_ids_increase_witness :
  process_frames CRC32C.check_residue
    [last_frame; middle_frame; first_frame; single_frame; first_frame]
    one_second idle_at_3
  = Ok ([None; None; Some emitted_10;
         Some (mk_transfer (mk_ts 1000) 20 [hedgehog]); None],
        mkReassembler 1234 100 [] None (mk_ts 1000) 21, [])
  ∧ never_restarts_backwards CRC32C.check_residue
      [last_frame; middle_frame; first_frame; single_frame; first_frame]
      one_second idle_at_3
  ∧ StronglySorted Z.lt
      (emitted_ids [None; None; Some emitted_10;
                    Some (mk_transfer (mk_ts 1000) 20 [hedgehog]); None])
  ∧ Forall (λ t, _transfer_id idle_at_3 ≤ t < 21)
      (emitted_ids [None; None; Some emitted_10;
                    Some (mk_transfer (mk_ts 1000) 20 [hedgehog]); None]).
Proof.
  assert (process_frames CRC32C.check_residue
            [last_frame; middle_frame; first_frame; single_frame; first_frame]
            one_second idle_at_3
          = Ok ([None; None; Some emitted_10;
                 Some (mk_transfer (mk_ts 1000) 20 [hedgehog]); None],
                mkReassembler 1234 100 [] None (mk_ts 1000) 21, [])) as Hrun
    by (vm_compute; reflexivity).
  assert (never_restarts_backwards CRC32C.check_residue
            [last_frame; middle_frame; first_frame; single_frame; first_frame]
            one_second idle_at_3) as Hnever
    by (vm_compute; repeat split; intros [? ?]; discriminate).
  exact (conj Hrun
           (conj Hnever
              (emitted_transfer_ids_increase CRC32C.check_residue _ one_second
                 idle_at_3 _ _ _ Hrun Hnever))).
Defined.

Lemma eot_errors_characterised_witness :
  process_frame CRC32C.check_residue second_last_frame one_second
    awaiting_first
  = Ok (None, after_emission,
        [OnError MULTIFRAME_EOT_INCONSISTENT awaiting_first])
  ∧ MULTIFRAME_EOT_INCONSISTENT
    ∈ errors_of [OnError MULTIFRAME_EOT_INCONSISTENT awaiting_first]
  ∧ malformed second_last_frame = false
  ∧ new_transfer second_last_frame one_second awaiting_first = false
  ∧ Frame.transfer_id second_last_frame = _transfer_id awaiting_first
  ∧ Frame.end_of_transfer second_last_frame = true
  ∧ ∃ m, _max_index awaiting_first = Some m
         ∧ m ≠ Frame.index second_last_frame.
Proof.
  assert (process_frame CRC32C.check_residue second_last_frame one_second
            awaiting_first
          = Ok (None, after_emission,
                [OnError MULTIFRAME_EOT_INCONSISTENT awaiting_first]))
    as Hstep by (vm_compute; reflexivity).
  assert (MULTIFRAME_EOT_INCONSISTENT
          ∈ errors_of [OnError MULTIFRAME_EOT_INCONSISTENT awaiting_first])
    as Hin by apply list_elem_of_here.
  exact (conj Hstep
           (conj Hin
              (proj1 (proj1 (eot_errors_characterised CRC32C.check_residue
                               second_last_frame one_second awaiting_first
                               None after_emission _ Hstep)) Hin))).
Defined.

Lemma negative_timeout_single_frames_only_witness :
  -1 < 0
  ∧ Timestamp.monotonic_ns (_timestamp idle_at_3)
    ≤ Timestamp.monotonic_ns (Frame.timestamp late_old_frame)
  ∧ process_frame CRC32C.check_residue late_old_frame (-1) idle_at_3
    = Ok (Some (mk_transfer (mk_ts 2000) 0 [hedgehog]),
          mkReassembler 1234 100 [] None (mk_ts 2000) 1, [])
  ∧ Frame.single_frame_transfer late_old_frame = true
  ∧ mk_transfer (mk_ts 2000) 0 [hedgehog]
    = TransferFrom.mk (Frame.timestamp late_old_frame)
        (Frame.priority late_old_frame) (Frame.transfer_id late_old_frame)
        [Frame.payload late_old_frame] (Some (_source_node_id idle_at_3)).
Proof.
  assert (-1 < 0) as Hto by reflexivity.
  assert (Timestamp.monotonic_ns (_timestamp idle_at_3)
          ≤ Timestamp.monotonic_ns (Frame.timestamp late_old_frame)) as Hts
    by (vm_compute; discriminate).
  assert (process_frame CRC32C.check_residue late_old_frame (-1) idle_at_3
          = Ok (Some (mk_transfer (mk_ts 2000) 0 [hedgehog]),
                mkReassembler 1234 100 [] None (mk_ts 2000) 1, [])) as Hstep
    by (vm_compute; reflexivity).
  exact (conj Hto
           (conj Hts
              (conj Hstep
                 (negative_timeout_single_frames_only CRC32C.check_residue
                    late_old_frame (-1) idle_at_3 _ _ _ Hto Hts Hstep)))).
Defined.

Lemma emitted_fragments_not_empty_witness :
  process_frame CRC32C.check_residue first_frame one_second awaiting_first
  = Ok (Some emitted_10, after_emission, [])
  ∧ (TransferFrom.fragmented_payload emitted_10 = [Frame.payload first_frame]
     ∨ (TransferFrom.fragmented_payload emitted_10 ≠ []
        ∧ Forall (λ fragment, fragment ≠ [])
                 (TransferFrom.fragmented_payload emitted_10))).
Proof.
  assert (process_frame CRC32C.check_residue first_frame one_second
            awaiting_first
          = Ok (Some emitted_10, after_emission, [])) as Hstep
    by (vm_compute; reflexivity).
  exact (conj Hstep
           (emitted_fragments_not_empty CRC32C.check_residue first_frame
              one_second awaiting_first emitted_10 after_emission [] Hstep)).
Defined.

Lemma empty_missing_size_errors_characterised_witness :
  process_frame CRC32C.check_residue single_frame one_second awaiting_first
  = Ok (Some (mk_transfer (mk_ts 1000) 20 [hedgehog]),
        mkReassembler 1234 100 [] None (mk_ts 1000) 21,
        [OnError MULTIFRAME_MISSING_FRAMES awaiting_first])
  ∧ MULTIFRAME_MISSING_FRAMES
    ∈ errors_of [OnError MULTIFRAME_MISSING_FRAMES awaiting_first]
  ∧ malformed single_frame = false
  ∧ new_transfer single_frame one_second awaiting_first = true
  ∧ _payloads awaiting_first ≠ [].
Proof.
  assert (process_frame CRC32C.check_residue single_frame one_second
            awaiting_first
          = Ok (Some (mk_transfer (mk_ts 1000) 20 [hedgehog]),
                mkReassembler 1234 100 [] None (mk_ts 1000) 21,
                [OnError MULTIFRAME_MISSING_FRAMES awaiting_first]))
    as Hstep by (vm_compute; reflexivity).
  assert (MULTIFRAME_MISSING_FRAMES
          ∈ errors_of [OnError MULTIFRAME_MISSING_FRAMES awaiting_first])
    as Hin by apply list_elem_of_here.
  exact (conj Hstep
           (conj Hin
              (proj1 (proj1 (proj2 (empty_missing_size_errors_characterised
                                      CRC32C.check_residue single_frame
                                      one_second awaiting_first _ _ _ Hstep)))
                 Hin))).
Defined.

Lemma emitted_transfer_timestamp_witness :
  process_frame CRC32C.check_residue first_frame one_second awaiting_first
  = Ok (Some emitted_10, after_emission, [])
  ∧ (TransferFrom.timestamp emitted_10
     = (if new_transfer first_frame one_second awaiting_first
        then Frame.timestamp first_frame else _timestamp awaiting_first)
     ∧ TransferFrom.priority emitted_10 = Frame.priority first_frame
     ∧ _timestamp after_emission = Frame.timestamp first_frame)
  ∧ process_frame CRC32C.check_residue next_single_frame one_second
      after_emission
    = Ok (Some (mk_transfer (mk_ts 1000) 11 [horse]),
          mkReassembler 1234 100 [] None five_later 12, [])
  ∧ Frame.transfer_id next_single_frame ≤ Frame.transfer_id first_frame + 1
  ∧ Timestamp.monotonic_ns (Frame.timestamp next_single_frame)
    - Timestamp.monotonic_ns (Frame.timestamp first_frame) ≤ one_second
  ∧ TransferFrom.timestamp (mk_transfer (mk_ts 1000) 11 [horse])
    = Frame.timestamp first_frame
  ∧ Frame.transfer_id next_single_frame = Frame.transfer_id first_frame + 1.
Proof.
  assert (process_frame CRC32C.check_residue first_frame one_second
            awaiting_first
          = Ok (Some emitted_10, after_emission, [])) as Hstep
    by (vm_compute; reflexivity).
  assert (process_frame CRC32C.check_residue next_single_frame one_second
            after_emission
          = Ok (Some (mk_transfer (mk_ts 1000) 11 [horse]),
                mkReassembler 1234 100 [] None five_later 12, [])) as Hnext
    by (vm_compute; reflexivity).
  assert (Frame.transfer_id next_single_frame
          ≤ Frame.transfer_id first_frame + 1) as Htid
    by (vm_compute; discriminate).
  assert (Timestamp.monotonic_ns (Frame.timestamp next_single_frame)
          - Timestamp.monotonic_ns (Frame.timestamp first_frame) ≤ one_second)
    as Htime by (vm_compute; discriminate).
  exact (conj Hstep
           (conj (proj1 (emitted_transfer_timestamp CRC32C.check_residue)
                    first_frame one_second awaiting_first emitted_10
                    after_emission [] Hstep)
              (conj Hnext
                 (conj Htid
                    (conj Htime
                       (proj2 (emitted_transfer_timestamp
                                 CRC32C.check_residue)
                          first_frame next_single_frame one_second
                          one_second awaiting_first emitted_10 after_emission
                          [] _ _ _ Hstep Hnext Htid Htime)))))).
Defined.

Lemma awaited_transfer_keeps_fragments_witness :
  malformed middle_frame = false
  ∧ new_transfer middle_frame one_second awaiting_two = false
  ∧ process_frame CRC32C.check_residue middle_frame one_second awaiting_two
    = Ok (None, awaiting_first, [])
  ∧ _transfer_id awaiting_first = Frame.transfer_id middle_frame
  ∧ @None TransferFrom.t = None ∧ @nil Event = []
  ∧ _payloads awaiting_first !! Frame.index middle_frame
    = Some (Frame.payload middle_frame)
  ∧ (∀ i, i ≠ Frame.index middle_frame →
          _payloads awaiting_first !! i =
          if (i <? length (_payloads awaiting_two)
                   `max` S (Frame.index middle_frame))%nat
          then Some (default [] (_payloads awaiting_two !! i)) else None)
  ∧ _max_index awaiting_first
    = (if Frame.end_of_transfer middle_frame
       then Some (Frame.index middle_frame) else _max_index awaiting_two)
  ∧ _timestamp awaiting_first = _timestamp awaiting_two
  ∧ _transfer_id awaiting_first = _transfer_id awaiting_two.
Proof.
  assert (malformed middle_frame = false) as Hmal by reflexivity.
  assert (new_transfer middle_frame one_second awaiting_two = false) as Hnew
    by (vm_compute; reflexivity).
  assert (process_frame CRC32C.check_residue middle_frame one_second
            awaiting_two
          = Ok (None, awaiting_first, [])) as Hstep
    by (vm_compute; reflexivity).
  assert (_transfer_id awaiting_first = Frame.transfer_id middle_frame)
    as Htid by reflexivity.
  exact (conj Hmal
           (conj Hnew
              (conj Hstep
                 (conj Htid
                    (awaited_transfer_keeps_fragments CRC32C.check_residue
                       middle_frame one_second awaiting_two None
                       awaiting_first [] Hmal Hnew Hstep Htid))))).
Defined.
